(** * pcap_stats: per-host flow statistics

    A shallow embedding of [plugins/heuristics/pcap_stats/pcap_stats.py]:
    the classes [TimeRecord], [MachineNode] and [FlowRecord] and the
    message callback [analyze_pcap].

    Conventions of the embedding.
    - A Python object that is mutated through [self] is a record value; a
      method that returns nothing maps the object before the call to the
      object after it.
    - A raised exception is the [Raise] case of [result].
    - Addresses, dates and times are strings, packet lengths and counters are
      unbounded integers ([Z]), dictionaries are [gmap]s.
    - A number returned by the [statistics] library is the rational number it
      denotes ([Qc]), whether Python holds it as an [int] or as a [float]. A
      [float] is a binary64 value: the library's final division is rounded to
      the nearest one, ties to even, and raises [OverflowError] beyond the
      range. [statistics] follows [Lib/statistics.py] of CPython 3.11 on lists
      of integers. *)

From Stdlib Require Import ZArith QArith Qcanon String Ascii List Lia.
From stdpp Require Import gmap strings list fin_maps pretty.

Local Open Scope string_scope.
Local Open Scope Z_scope.

(** ** Exceptions *)

Inductive exn : Set :=
| TypeError
| ValueError
| SyntaxError
| StatisticsError
| OverflowError
| ZeroDivisionError.

Inductive result (A : Type) : Type :=
| Return (a : A)
| Raise (e : exn).
Arguments Return {A} a.
Arguments Raise {A} e.

Global Instance result_ret : MRet result := λ A a, Return a.
Global Instance result_bind : MBind result := λ A B f m,
  match m with
  | Return a => f a
  | Raise e => Raise e
  end.

(** Truth value of an attribute that holds [None] or a string: [None] and
    the empty string are false. *)
Definition truthy (v : option string) : bool :=
  match v with
  | None => false
  | Some EmptyString => false
  | Some (String _ _) => true
  end.

(** ** [datetime] *)

Module datetime.

(** A [datetime] is its offset from a fixed origin and a [timedelta] is a
    difference of two, both in microseconds. *)
Definition t := Z.
Definition timedelta := Z.

Definition sub (a b : t) : timedelta := a - b.

(** [n] as a decimal number of at least [width] digits, padded with zeros
    on the left (the conversions [%02d] and [%06d], for [0 <= n]). *)
Fixpoint zeros (k : nat) : string :=
  match k with
  | O => ""
  | S k => "0" ++ zeros k
  end.

Definition zero_padded (width : nat) (n : Z) : string :=
  let digits := pretty n in
  zeros (width - String.length digits) ++ digits.

(** [str(timedelta)]: the value is normalised to days, seconds in
    [0, 86400) and microseconds in [0, 10^6), and printed as
    [[D day[s], ]H:MM:SS[.UUUUUU]]. *)
Definition str (d : timedelta) : string :=
  let days := d `div` 86400000000 in
  let rest := d `mod` 86400000000 in
  let seconds := rest `div` 1000000 in
  let microseconds := rest `mod` 1000000 in
  let mm := seconds `div` 60 in
  let ss := seconds `mod` 60 in
  let hh := mm `div` 60 in
  let mm := mm `mod` 60 in
  let s := pretty hh ++ ":" ++ zero_padded 2 mm ++ ":" ++ zero_padded 2 ss in
  let s :=
    if bool_decide (days ≠ 0)
    then pretty days ++ " day"
           ++ (if bool_decide (Z.abs days ≠ 1) then "s" else "") ++ ", " ++ s
    else s in
  if bool_decide (microseconds ≠ 0)
  then s ++ "." ++ zero_padded 6 microseconds
  else s.

Section strptime.

(** The parser of the format ['%Y-%m-%d %H:%M:%S.%f'] on strings; [None]
    where the string does not match the format. *)
Variable parse : string → option t.

(** [datetime.strptime(v, '%Y-%m-%d %H:%M:%S.%f')] for an attribute [v]
    that holds [None] or a string. *)
Definition strptime (v : option string) : result t :=
  match v with
  | None => Raise TypeError
  | Some s =>
      match parse s with
      | Some d => Return d
      | None => Raise ValueError
      end
  end.

End strptime.

End datetime.

(** ** [class TimeRecord] *)

Module TimeRecord.

Record t : Type := mk {
  first_sent : option string;
  first_received : option string;
  last_sent : option string;
  last_received : option string
}.

(** [__init__] *)
Definition init : t := mk None None None None.

Definition update_sent (self : t) (time : string) : t :=
  let self :=
    if negb (truthy (first_sent self))
    then mk (Some time) (first_received self) (last_sent self) (last_received self)
    else self in
  mk (first_sent self) (first_received self) (Some time) (last_received self).

Definition update_received (self : t) (time : string) : t :=
  let self :=
    if negb (truthy (first_received self))
    then mk (first_sent self) (Some time) (last_sent self) (last_received self)
    else self in
  mk (first_sent self) (first_received self) (last_sent self) (Some time).

Section elapsed.

Variable parse : string → option datetime.t.

Definition get_elapsed_time_sent (self : t) : result string :=
  first ← datetime.strptime parse (first_sent self);
  latest ← datetime.strptime parse (last_sent self);
  mret (datetime.str (datetime.sub latest first)).

Definition get_elapsed_time_received (self : t) : result string :=
  first ← datetime.strptime parse (first_received self);
  latest ← datetime.strptime parse (last_received self);
  mret (datetime.str (datetime.sub latest first)).

End elapsed.

(** A call of one of the two mutators, and a sequence of calls applied in
    order. *)
Inductive call : Type :=
| UpdateSent (time : string)
| UpdateReceived (time : string).

Definition apply (self : t) (c : call) : t :=
  match c with
  | UpdateSent time => update_sent self time
  | UpdateReceived time => update_received self time
  end.

Definition run (self : t) (calls : list call) : t :=
  fold_left apply calls self.

(** The arguments of the [update_sent] calls of a sequence, in order, and
    those of its [update_received] calls. *)
Definition sent_times (calls : list call) : list string :=
  omap (λ c, match c with UpdateSent time => Some time | _ => None end) calls.

Definition received_times (calls : list call) : list string :=
  omap (λ c, match c with UpdateReceived time => Some time | _ => None end) calls.

(** The argument of a call. *)
Definition call_time (c : call) : string :=
  match c with
  | UpdateSent time => time
  | UpdateReceived time => time
  end.

End TimeRecord.

(** ** Integers and floats *)

Module float.

(** [int.bit_length] *)
Definition bit_length (n : Z) : Z := if n =? 0 then 0 else Z.log2 (Z.abs n) + 1.

(** The integer nearest to [num / den], the even one of two that are equally
    near, for [0 <= num] and [0 < den]. *)
Definition round_half_even (num den : Z) : Z :=
  let q := num `div` den in
  let r := num `mod` den in
  if 2 * r <? den then q
  else if den <? 2 * r then q + 1
  else if Z.even q then q else q + 1.

(** The binary64 value nearest to [a / b], for [0 < a] and [0 < b]. The
    quotient is counted in units of [2^-1074], the spacing of the smallest
    values; a value of [2^52] units or more keeps 53 significant bits, so it
    is a multiple of [2^e] units. A rounded value of [2^1024] or more is out
    of range. *)
Definition round_nearest (a b : Z) : result Qc :=
  let units := a * 2 ^ 1074 in
  let e := Z.max 0 (Z.log2 (units `div` b) - 52) in
  let m := round_half_even units (b * 2 ^ e) in
  if 2 ^ 2098 <=? m * 2 ^ e then Raise OverflowError
  else Return (Qc_of_Z (m * 2 ^ e) / Qc_of_Z (2 ^ 1074))%Qc.

(** [a / b] on two integers: the quotient, correctly rounded. *)
Definition true_divide (a b : Z) : result Qc :=
  if b =? 0 then Raise ZeroDivisionError
  else
    let (a, b) := if b <? 0 then (- a, - b) else (a, b) in
    if a =? 0 then Return 0%Qc
    else if 0 <? a then round_nearest a b
    else x ← round_nearest (- a) b; Return (- x)%Qc.

End float.

(** ** [statistics] *)

Module statistics.

Definition sum (data : list Z) : Z := foldr Z.add 0%Z data.

Definition len (data : list Z) : Z := Z.of_nat (List.length data).

Definition sum_squares (data : list Z) : Z := foldr (λ x acc, x * x + acc) 0 data.

(** [statistics.mean]: the total over the number of data points as a
    fraction in lowest terms, returned as an [int] when its denominator is 1
    and converted to a [float] otherwise ([_convert], which divides the
    numerator by the denominator). *)
Definition mean (data : list Z) : result Qc :=
  let n := len data in
  if n <? 1 then Raise StatisticsError
  else
    let total := sum data in
    let g := Z.gcd total n in
    let numerator := total `div` g in
    let denominator := n `div` g in
    if denominator =? 1 then Return (Qc_of_Z numerator)
    else float.true_divide numerator denominator.

(** [_integer_sqrt_of_frac_rto]: the square root of [n / m], rounded to the
    nearest integer using round-to-odd. *)
Definition integer_sqrt_of_frac_rto (n m : Z) : Z :=
  let a := Z.sqrt (n `div` m) in
  Z.lor a (if a * a * m =? n then 0 else 1).

(** [_float_sqrt_of_frac]: the square root of [n / m] as a float. *)
Definition float_sqrt_of_frac (n m : Z) : result Qc :=
  let q := (float.bit_length n - float.bit_length m - 109) `div` 2 in
  if 0 <=? q then
    float.true_divide (integer_sqrt_of_frac_rto n (m * 2 ^ (2 * q)) * 2 ^ q) 1
  else
    float.true_divide (integer_sqrt_of_frac_rto (n * 2 ^ (- 2 * q)) m) (2 ^ (- q)).

(** [statistics.stdev]: with [sx] the sum and [sxx] the sum of the squares
    of the [n] data points, [_ss] returns [(n * sxx - sx * sx) / n], which
    [stdev] divides by [n - 1]; the square root is taken of the numerator and
    denominator of that fraction in lowest terms. *)
Definition stdev (data : list Z) : result Qc :=
  let n := len data in
  if n <? 2 then Raise StatisticsError
  else
    let k := n * sum_squares data - sum data * sum data in
    let d := n * (n - 1) in
    let g := Z.gcd k d in
    float_sqrt_of_frac (k `div` g) (d `div` g).

End statistics.

(** ** The decoded packet record *)

Module Pcap.

(** The dictionary decoded from a message body, with the keys the module
    reads. A dictionary that has these keys is not empty, so a supplied
    record is always true in [if pcap:]. *)
Record t : Type := mk {
  src_ip : string;
  dest_ip : string;
  length : Z;
  date : string;
  time : string
}.

(** ['%s %s' % (pcap['date'], pcap['time'])] *)
Definition date_time (pcap : t) : string := date pcap ++ " " ++ time pcap.

End Pcap.

(** ** [class MachineNode] *)

(** [d[k] += 1] on a [defaultdict(int)]. *)
Definition incr (d : gmap string Z) (k : string) : gmap string Z :=
  <[k := default 0 (d !! k) + 1]> d.

Module MachineNode.

Record t : Type := mk {
  machine_addr : string;
  num_packets : Z;
  packet_lengths : list Z;
  machines_sent_to : gmap string Z;
  machines_received_from : gmap string Z;
  time_record : TimeRecord.t
}.

(** [__init__] *)
Definition init (addr : string) : t := mk addr 0 [] ∅ ∅ TimeRecord.init.

Definition add_pcap_record (self : t) (length : Z) (addr : string)
    (receiving : bool) (pcap : option Pcap.t) : t :=
  let num_packets := num_packets self + 1 in
  let packet_lengths := (packet_lengths self ++ [length])%list in
  if receiving then
    let machines_received_from := incr (machines_received_from self) addr in
    let time_record :=
      match pcap with
      | Some p => TimeRecord.update_received (time_record self) (Pcap.date_time p)
      | None => time_record self
      end in
    mk (machine_addr self) num_packets packet_lengths
       (machines_sent_to self) machines_received_from time_record
  else
    let machines_sent_to := incr (machines_sent_to self) addr in
    let time_record :=
      match pcap with
      | Some p => TimeRecord.update_sent (time_record self) (Pcap.date_time p)
      | None => time_record self
      end in
    mk (machine_addr self) num_packets packet_lengths
       machines_sent_to (machines_received_from self) time_record.

Section duration.

Variable parse : string → option datetime.t.

Definition get_flow_duration (self : t) (direction : string) : result string :=
  if bool_decide (direction = "sent")
  then TimeRecord.get_elapsed_time_sent parse (time_record self)
  else TimeRecord.get_elapsed_time_received parse (time_record self).

End duration.

Definition get_mean_packet_len (self : t) : result Qc :=
  statistics.mean (packet_lengths self).

(** The value returned by [get_packet_len_std_dev]: a number, or the
    message of the [except] branch. *)
Inductive std_dev : Type :=
| StdDev (x : Qc)
| Message (s : string).

Definition get_packet_len_std_dev (self : t) : std_dev :=
  match statistics.stdev (packet_lengths self) with
  | Return x => StdDev x
  | Raise _ => Message "Error retrieving standard deviation."
  end.

(** Sum of the frequencies of a per-peer table. *)
Definition total (d : gmap string Z) : Z :=
  map_fold (λ _ freq acc, freq + acc) 0 d.

(** The nodes that a freshly created node can become by calls of
    [add_pcap_record]. *)
Inductive reachable (addr : string) : t → Prop :=
| reachable_init : reachable addr (init addr)
| reachable_add self length peer receiving pcap :
    reachable addr self →
    reachable addr (add_pcap_record self length peer receiving pcap).

(** [get_machines_sent_to] and [get_machines_received_from]: the pairs the
    generator yields, one per item of the dictionary. The order in which a
    Python dictionary is iterated is not modelled; the list has the order of
    [map_to_list]. *)
Definition get_machines_sent_to (self : t) : list (string * Z) :=
  map_to_list (machines_sent_to self).

Definition get_machines_received_from (self : t) : list (string * Z) :=
  map_to_list (machines_received_from self).

(** A call of [add_pcap_record] with its arguments, and a sequence of calls
    applied in order. *)
Record call : Type := mk_call {
  call_length : Z;
  call_addr : string;
  call_receiving : bool;
  call_pcap : option Pcap.t
}.

Definition apply (self : t) (c : call) : t :=
  add_pcap_record self (call_length c) (call_addr c) (call_receiving c) (call_pcap c).

Definition run (self : t) (calls : list call) : t :=
  fold_left apply calls self.

(** The calls of [update_sent] and [update_received] that a sequence of
    calls of [add_pcap_record] makes on the time record. *)
Definition time_call (c : call) : option TimeRecord.call :=
  match call_pcap c with
  | Some p =>
      Some (if call_receiving c
            then TimeRecord.UpdateReceived (Pcap.date_time p)
            else TimeRecord.UpdateSent (Pcap.date_time p))
  | None => None
  end.

Definition time_calls (calls : list call) : list TimeRecord.call :=
  omap time_call calls.

(** The calls that record a packet sent to [peer], those that record one
    received from [peer], and the number of calls of a kind in a
    sequence. *)
Definition sends_to (peer : string) (c : call) : bool :=
  negb (call_receiving c) && bool_decide (call_addr c = peer).

Definition receives_from (peer : string) (c : call) : bool :=
  call_receiving c && bool_decide (call_addr c = peer).

Definition number_of (kind : call → bool) (calls : list call) : Z :=
  Z.of_nat (List.length (List.filter kind calls)).

End MachineNode.

(** ** [class FlowRecord] *)

Module FlowRecord.

Record t : Type := mk { machines : gmap string MachineNode.t }.

(** [__init__] *)
Definition init : t := mk ∅.

Definition update (self : t) (src_addr : string) (s_in_net : bool)
    (dest_addr : string) (d_in_net : bool) (length : Z)
    (pcap : option Pcap.t) : t :=
  let self :=
    if s_in_net then
      match machines self !! src_addr with
      | None =>
          let node := MachineNode.init src_addr in
          let node := MachineNode.add_pcap_record node length dest_addr false pcap in
          mk (<[src_addr := node]> (machines self))
      | Some node =>
          mk (<[src_addr :=
                 MachineNode.add_pcap_record node length dest_addr false pcap]>
                (machines self))
      end
    else self in
  if d_in_net then
    match machines self !! dest_addr with
    | None =>
        let node := MachineNode.init dest_addr in
        let node := MachineNode.add_pcap_record node length src_addr true pcap in
        mk (<[dest_addr := node]> (machines self))
    | Some node =>
        mk (<[dest_addr :=
               MachineNode.add_pcap_record node length src_addr true pcap]>
              (machines self))
    end
  else self.

(** The registries that the empty registry can become by calls of
    [update]. *)
Inductive reachable : t → Prop :=
| reachable_init : reachable init
| reachable_update self src_addr s_in_net dest_addr d_in_net length pcap :
    reachable self →
    reachable (update self src_addr s_in_net dest_addr d_in_net length pcap).

(** The returned node, paired with the registry after the call. *)
Definition get_machine_node (self : t) (addr : string) : option MachineNode.t * t :=
  match machines self !! addr with
  | None => (None, self)
  | Some node => (Some node, self)
  end.

End FlowRecord.

(** ** [analyze_pcap] *)

Section analyze.

(** [ast.literal_eval] on a message body: the packet record the body
    decodes to. [Raise] stands for a body that does not decode to a
    dictionary with the five keys; the model does not follow such a body
    further. *)
Variable literal_eval : string → result Pcap.t.

(** The global list [network_machines]. *)
Variable network_machines : list string.

Definition in_network (addr : string) : bool :=
  bool_decide (addr ∈ network_machines).

(** The callback, without its unused arguments [ch], [method] and
    [properties]; the result is the registry [flow] after the call. *)
Definition analyze_pcap (body : string) (flow : FlowRecord.t) : result FlowRecord.t :=
  pcap ← literal_eval body;
  if in_network (Pcap.src_ip pcap) && in_network (Pcap.dest_ip pcap) then
    Return (FlowRecord.update flow (Pcap.src_ip pcap) true (Pcap.dest_ip pcap) true
              (Pcap.length pcap) (Some pcap))
  else if in_network (Pcap.src_ip pcap) then
    Return (FlowRecord.update flow (Pcap.src_ip pcap) true (Pcap.dest_ip pcap) false
              (Pcap.length pcap) (Some pcap))
  else if in_network (Pcap.dest_ip pcap) then
    Return (FlowRecord.update flow (Pcap.src_ip pcap) false (Pcap.dest_ip pcap) true
              (Pcap.length pcap) (Some pcap))
  else
    Return flow.

(** The callback run on the bodies of a queue, in order. *)
Fixpoint consume (bodies : list string) (flow : FlowRecord.t) : result FlowRecord.t :=
  match bodies with
  | [] => Return flow
  | body :: bodies => flow ← analyze_pcap body flow; consume bodies flow
  end.

End analyze.

(** ** Instances of the parameters, for running the model *)

Module Sample.

(** A parser for the zero-padded, fixed-width strings of the format
    ['%Y-%m-%d %H:%M:%S.%f'], such as ["2016-06-22 10:15:00.250000"]. The
    value is the number of microseconds since the start of the day before
    0001-01-01 in the proleptic Gregorian calendar. *)

Definition digit (c : ascii) : option Z :=
  let n := Z.of_nat (nat_of_ascii c) in
  if (48 <=? n) && (n <=? 57) then Some (n - 48) else None.

Fixpoint number (acc : Z) (s : string) : option Z :=
  match s with
  | EmptyString => Some acc
  | String c s => d ← digit c; number (10 * acc + d) s
  end.

Definition is_leap (y : Z) : bool :=
  (y `mod` 4 =? 0) && (negb (y `mod` 100 =? 0) || (y `mod` 400 =? 0)).

Definition days_in_month (y m : Z) : Z :=
  if m =? 2 then (if is_leap y then 29 else 28)
  else if (m =? 4) || (m =? 6) || (m =? 9) || (m =? 11) then 30
  else 31.

Definition days_before_year (y : Z) : Z :=
  let y := y - 1 in
  y * 365 + y `div` 4 - y `div` 100 + y `div` 400.

Definition days_before_month (y m : Z) : Z :=
  nth (Z.to_nat (m - 1)) [0; 31; 59; 90; 120; 151; 181; 212; 243; 273; 304; 334] 0
  + (if (2 <? m) && is_leap y then 1 else 0).

Definition separators_ok (s : string) : bool :=
  bool_decide (substring 4 1 s = "-" ∧ substring 7 1 s = "-" ∧
               substring 10 1 s = " " ∧ substring 13 1 s = ":" ∧
               substring 16 1 s = ":" ∧ substring 19 1 s = ".").

Definition parse (s : string) : option datetime.t :=
  let fraction := substring 20 6 s in
  let k := String.length fraction in
  if separators_ok s && bool_decide (String.length s = (20 + k)%nat) && (1 <=? k)%nat then
    Y ← number 0 (substring 0 4 s);
    m ← number 0 (substring 5 2 s);
    d ← number 0 (substring 8 2 s);
    H ← number 0 (substring 11 2 s);
    M ← number 0 (substring 14 2 s);
    S ← number 0 (substring 17 2 s);
    f ← number 0 fraction;
    if (1 <=? Y) && (1 <=? m) && (m <=? 12) && (1 <=? d) && (d <=? days_in_month Y m)
       && (H <? 24) && (M <? 60) && (S <? 60)
    then
      let ordinal := days_before_year Y + days_before_month Y m + d in
      Some ((((ordinal * 24 + H) * 60 + M) * 60 + S) * 1000000
            + f * 10 ^ (6 - Z.of_nat k))
    else None
  else None.

(** A decoder given by a finite table of message bodies. *)
Fixpoint literal_eval (table : list (string * Pcap.t)) (body : string) : result Pcap.t :=
  match table with
  | [] => Raise SyntaxError
  | (b, pcap) :: table =>
      if bool_decide (b = body) then Return pcap else literal_eval table body
  end.

(** Three messages between the monitored hosts [A] and [B] and the
    outside host [C]. *)
Definition A : string := "10.0.0.1".
Definition B : string := "10.0.0.2".
Definition C : string := "8.8.8.8".

Definition body1 : string :=
  "{'src_ip': '10.0.0.1', 'dest_ip': '10.0.0.2', 'length': 100, 'date': '2016-06-22', 'time': '10:00:00.000000'}".
Definition body2 : string :=
  "{'src_ip': '10.0.0.1', 'dest_ip': '10.0.0.2', 'length': 200, 'date': '2016-06-22', 'time': '10:00:01.500000'}".
Definition body3 : string :=
  "{'src_ip': '8.8.8.8', 'dest_ip': '10.0.0.1', 'length': 50, 'date': '2016-06-22', 'time': '10:00:02.000000'}".

Definition table : list (string * Pcap.t) :=
  [ (body1, Pcap.mk A B 100 "2016-06-22" "10:00:00.000000");
    (body2, Pcap.mk A B 200 "2016-06-22" "10:00:01.500000");
    (body3, Pcap.mk C A 50 "2016-06-22" "10:00:02.000000") ].

Definition network_machines : list string := [A; B].

Definition flow : result FlowRecord.t :=
  consume (literal_eval table) network_machines [body1; body2; body3] FlowRecord.init.

End Sample.

(** ** Vocabulary of the statements *)

(** The node an in-network address stands for before an update: the
    registered one, or a new one when the address is not registered. *)
Definition node_or_new (flow : FlowRecord.t) (addr : string) : MachineNode.t :=
  default (MachineNode.init addr) (FlowRecord.machines flow !! addr).

(** From [before] to [after], the node of [src] records a packet sent to
    [dest] and no other entry changes. *)
Definition records_sent (before after : FlowRecord.t) (src dest : string)
    (length : Z) (pcap : option Pcap.t) : Prop :=
  FlowRecord.machines after !! src
  = Some (MachineNode.add_pcap_record (node_or_new before src) length dest false pcap)
  ∧ ∀ addr, addr ≠ src →
      FlowRecord.machines after !! addr = FlowRecord.machines before !! addr.

(** From [before] to [after], the node of [dest] records a packet received
    from [src] and no other entry changes. *)
Definition records_received (before after : FlowRecord.t) (dest src : string)
    (length : Z) (pcap : option Pcap.t) : Prop :=
  FlowRecord.machines after !! dest
  = Some (MachineNode.add_pcap_record (node_or_new before dest) length src true pcap)
  ∧ ∀ addr, addr ≠ dest →
      FlowRecord.machines after !! addr = FlowRecord.machines before !! addr.

(** Every node of the registry is a node reached from a freshly created
    one for the address it is registered at. *)
Definition nodes_reachable (flow : FlowRecord.t) : Prop :=
  ∀ addr node,
    FlowRecord.machines flow !! addr = Some node → MachineNode.reachable addr node.

(** The number of packets recorded for an address: that of its node, and 0
    for an address that is not registered. *)
Definition packets (flow : FlowRecord.t) (addr : string) : Z :=
  from_option MachineNode.num_packets 0 (FlowRecord.machines flow !! addr).

(** The number of ends of a packet, source and destination, that an address
    of the network is. *)
Definition ends (network_machines : list string) (addr : string) (event : Pcap.t) : Z :=
  if in_network network_machines addr
  then (if bool_decide (Pcap.src_ip event = addr) then 1 else 0)
       + (if bool_decide (Pcap.dest_ip event = addr) then 1 else 0)
  else 0.

(** A node that was created for [addr] and then updated by at least one
    call of [add_pcap_record], every call with a pcap record. *)
Definition recorded_with_pcap (addr : string) (node : MachineNode.t) : Prop :=
  ∃ calls,
    calls ≠ []
    ∧ Forall (λ c, is_Some (MachineNode.call_pcap c)) calls
    ∧ node = MachineNode.run (MachineNode.init addr) calls.

(** Every node of the registry has recorded a length. *)
Definition nodes_nonempty (flow : FlowRecord.t) : Prop :=
  ∀ addr node,
    FlowRecord.machines flow !! addr = Some node → MachineNode.packet_lengths node ≠ [].

(** Every node of the registry was created for the address it is registered
    at and updated by calls with a pcap record. *)
Definition nodes_recorded_with_pcap (flow : FlowRecord.t) : Prop :=
  ∀ addr node,
    FlowRecord.machines flow !! addr = Some node → recorded_with_pcap addr node.

(** The relative distance of [x] to [q] is at most [1 / C]. *)
Definition within (C : Z) (q x : Qc) : Prop :=
  ((1 - / Qc_of_Z C) * q ≤ x ∧ x ≤ (1 + / Qc_of_Z C) * q)%Qc.




(** The dispatcher as the specification words it: decode the event,
    classify both addresses against the membership set, and make one call
    of [FlowRecord.update] with the two membership tests. *)
Definition dispatch (literal_eval : string → result Pcap.t) (membership : gset string)
    (raw_event : string) (flow : FlowRecord.t) : result FlowRecord.t :=
  event ← literal_eval raw_event;
  Return (FlowRecord.update flow
            (Pcap.src_ip event) (bool_decide (Pcap.src_ip event ∈ membership))
            (Pcap.dest_ip event) (bool_decide (Pcap.dest_ip event ∈ membership))
            (Pcap.length event) (Some event)).

(** * Properties *)

(** ** The printed form of a time difference, and the sample instances *)

Example str_backwards : datetime.str (-1000000) = "-1 day, 23:59:59".
Proof. reflexivity. Qed.

Example str_days : datetime.str (2 * 86400000000 + 3723000042) = "2 days, 1:02:03.000042".
Proof. reflexivity. Qed.

Example str_zero : datetime.str 0 = "0:00:00".
Proof. reflexivity. Qed.

Example parse_sample :
  Sample.parse "2016-06-22 10:00:01.500000" = Some 63602272801500000.
Proof. reflexivity. Qed.

Example parse_short_fraction :
  Sample.parse "2016-06-22 10:00:01.5" = Sample.parse "2016-06-22 10:00:01.500000".
Proof. reflexivity. Qed.

Example parse_no_date : Sample.parse "10:00:01.500000" = None.
Proof. reflexivity. Qed.

Example sample_flow_duration :
  (flow ← Sample.flow;
   match (FlowRecord.get_machine_node flow Sample.A).1 with
   | Some node => MachineNode.get_flow_duration Sample.parse node "sent"
   | None => Raise ValueError
   end)
  = Return "0:00:01.500000".
Proof. vm_compute. reflexivity. Qed.

Example sample_node_b :
  (flow ← Sample.flow;
   match (FlowRecord.get_machine_node flow Sample.B).1 with
   | Some node => Return (MachineNode.num_packets node,
                          MachineNode.get_flow_duration Sample.parse node "received",
                          MachineNode.get_flow_duration Sample.parse node "sent")
   | None => Raise ValueError
   end)
  = Return (2, Return "0:00:01.500000", Raise TypeError).
Proof. vm_compute. reflexivity. Qed.

Example parse_leap_day :
  Sample.parse "2016-02-29 00:00:00.0" ≠ None ∧ Sample.parse "2015-02-29 00:00:00.0" = None.
Proof. split; [discriminate|reflexivity]. Qed.

(** ** [TimeRecord] *)

Section time_record_facts.

Import TimeRecord.

Implicit Types (self : TimeRecord.t) (time : string) (calls : list call).

Lemma truthy_nonempty time : time ≠ "" → truthy (Some time) = true.
Proof. by destruct time. Qed.

Lemma run_snoc self calls c : run self (calls ++ [c]) = apply (run self calls) c.
Proof. unfold run. by rewrite fold_left_app. Qed.

Lemma run_cons self calls c : run self (c :: calls) = run (apply self c) calls.
Proof. done. Qed.

Lemma first_sent_kept self c :
  truthy (first_sent self) = true → first_sent (apply self c) = first_sent self.
Proof.
  intros Hset. destruct c; simpl; unfold update_sent, update_received.
  - by rewrite Hset.
  - by destruct (truthy (first_received self)).
Qed.

Lemma first_received_kept self c :
  truthy (first_received self) = true →
  first_received (apply self c) = first_received self.
Proof.
  intros Hset. destruct c; simpl; unfold update_sent, update_received.
  - by destruct (truthy (first_sent self)).
  - by rewrite Hset.
Qed.

Lemma first_sent_stable self calls :
  truthy (first_sent self) = true → first_sent (run self calls) = first_sent self.
Proof.
  intros Hset. induction calls as [|c calls IH] using rev_ind; [done|].
  rewrite run_snoc, first_sent_kept; rewrite IH; done.
Qed.

Lemma first_received_stable self calls :
  truthy (first_received self) = true →
  first_received (run self calls) = first_received self.
Proof.
  intros Hset. induction calls as [|c calls IH] using rev_ind; [done|].
  rewrite run_snoc, first_received_kept; rewrite IH; done.
Qed.

Lemma last_sent_run self calls :
  last_sent (run self calls) = from_option Some (last_sent self) (last (sent_times calls)).
Proof.
  induction calls as [|c calls IH] using rev_ind; [done|].
  rewrite run_snoc. unfold sent_times in *. rewrite omap_app. destruct c; simpl.
  - by rewrite last_snoc.
  - rewrite app_nil_r, <- IH. unfold update_received.
    by destruct (truthy (first_received _)).
Qed.

Lemma last_received_run self calls :
  last_received (run self calls)
  = from_option Some (last_received self) (last (received_times calls)).
Proof.
  induction calls as [|c calls IH] using rev_ind; [done|].
  rewrite run_snoc. unfold received_times in *. rewrite omap_app. destruct c; simpl.
  - rewrite app_nil_r, <- IH. unfold update_sent.
    by destruct (truthy (first_sent _)).
  - by rewrite last_snoc.
Qed.

Lemma first_sent_run self calls time times :
  first_sent self = None → sent_times calls = time :: times → time ≠ "" →
  first_sent (run self calls) = Some time.
Proof.
  revert self. induction calls as [|c calls IH]; intros self Hnone Htimes Hne; [done|].
  rewrite run_cons. destruct c as [t|t]; simpl in *.
  - injection Htimes as -> _. rewrite first_sent_stable.
    + unfold update_sent. by rewrite Hnone.
    + unfold update_sent. rewrite Hnone. simpl. by apply truthy_nonempty.
  - apply IH; [|done..]. unfold update_received. by destruct (truthy _).
Qed.

Lemma first_received_run self calls time times :
  first_received self = None → received_times calls = time :: times → time ≠ "" →
  first_received (run self calls) = Some time.
Proof.
  revert self. induction calls as [|c calls IH]; intros self Hnone Htimes Hne; [done|].
  rewrite run_cons. destruct c as [t|t]; simpl in *.
  - apply IH; [|done..]. unfold update_sent. by destruct (truthy _).
  - injection Htimes as -> _. rewrite first_received_stable.
    + unfold update_received. by rewrite Hnone.
    + unfold update_received. rewrite Hnone. simpl. by apply truthy_nonempty.
Qed.

Lemma first_sent_never self calls :
  first_sent self = None → sent_times calls = [] → first_sent (run self calls) = None.
Proof.
  revert self. induction calls as [|c calls IH]; intros self Hnone Htimes; [done|].
  rewrite run_cons. destruct c as [t|t]; [done|]. apply IH; [|done].
  simpl. unfold update_received. by destruct (truthy _).
Qed.

Lemma first_received_never self calls :
  first_received self = None → received_times calls = [] →
  first_received (run self calls) = None.
Proof.
  revert self. induction calls as [|c calls IH]; intros self Hnone Htimes; [done|].
  rewrite run_cons. destruct c as [t|t]; [|done]. apply IH; [|done].
  simpl. unfold update_sent. by destruct (truthy _).
Qed.

End time_record_facts.

Section elapsed_facts.

Import TimeRecord.

Variable parse : string → option datetime.t.

(** The elapsed time in terms of the stored attributes. *)
Lemma get_elapsed_time_sent_fields (self : TimeRecord.t) a b first latest :
  first_sent self = Some a → last_sent self = Some b →
  parse a = Some first → parse b = Some latest →
  get_elapsed_time_sent parse self = Return (datetime.str (latest - first)).
Proof.
  intros Ha Hb Hfirst Hlatest. unfold get_elapsed_time_sent.
  rewrite Ha, Hb. simpl. by rewrite Hfirst, Hlatest.
Qed.

Lemma get_elapsed_time_received_fields (self : TimeRecord.t) a b first latest :
  first_received self = Some a → last_received self = Some b →
  parse a = Some first → parse b = Some latest →
  get_elapsed_time_received parse self = Return (datetime.str (latest - first)).
Proof.
  intros Ha Hb Hfirst Hlatest. unfold get_elapsed_time_received.
  rewrite Ha, Hb. simpl. by rewrite Hfirst, Hlatest.
Qed.

Lemma get_elapsed_time_sent_unset (self : TimeRecord.t) :
  first_sent self = None → get_elapsed_time_sent parse self = Raise TypeError.
Proof. intros Hnone. unfold get_elapsed_time_sent. by rewrite Hnone. Qed.

Lemma get_elapsed_time_received_unset (self : TimeRecord.t) :
  first_received self = None → get_elapsed_time_received parse self = Raise TypeError.
Proof. intros Hnone. unfold get_elapsed_time_received. by rewrite Hnone. Qed.

(** The format has a date and a time, so it does not match the empty
    string. *)
Hypothesis parse_empty : parse "" = None.

Lemma parsed_nonempty time d : parse time = Some d → time ≠ "".
Proof. intros Hparse ->. congruence. Qed.

(** C5. On a record that has seen the calls [calls] since its creation:
    [get_elapsed_time_sent] raises when [update_sent] was never called, and
    otherwise returns the printed difference between the last and the first
    time given to [update_sent], whatever their order; likewise
    [get_elapsed_time_received] for [update_received]. *)
Theorem elapsed_time_first_to_last (calls : list call) :
  (sent_times calls = [] →
   get_elapsed_time_sent parse (run init calls) = Raise TypeError)
  ∧ (∀ t_first t_last first latest,
       head (sent_times calls) = Some t_first →
       last (sent_times calls) = Some t_last →
       parse t_first = Some first → parse t_last = Some latest →
       first_sent (run init calls) = Some t_first
       ∧ last_sent (run init calls) = Some t_last
       ∧ get_elapsed_time_sent parse (run init calls)
         = Return (datetime.str (latest - first)))
  ∧ (received_times calls = [] →
     get_elapsed_time_received parse (run init calls) = Raise TypeError)
  ∧ (∀ t_first t_last first latest,
       head (received_times calls) = Some t_first →
       last (received_times calls) = Some t_last →
       parse t_first = Some first → parse t_last = Some latest →
       first_received (run init calls) = Some t_first
       ∧ last_received (run init calls) = Some t_last
       ∧ get_elapsed_time_received parse (run init calls)
         = Return (datetime.str (latest - first))).
Proof.
  split; [|split; [|split]].
  - intros Hnever. by apply get_elapsed_time_sent_unset, first_sent_never.
  - intros t_first t_last first latest Hhead Hlast Hfirst Hlatest.
    destruct (sent_times calls) as [|t times] eqn:Htimes; [done|].
    injection Hhead as ->.
    assert (first_sent (run init calls) = Some t_first) as Ha.
    { eapply first_sent_run; [done|done|]. by eapply parsed_nonempty. }
    assert (last_sent (run init calls) = Some t_last) as Hb.
    { by rewrite last_sent_run, Htimes, Hlast. }
    split; [done|]. split; [done|]. by eapply get_elapsed_time_sent_fields.
  - intros Hnever. by apply get_elapsed_time_received_unset, first_received_never.
  - intros t_first t_last first latest Hhead Hlast Hfirst Hlatest.
    destruct (received_times calls) as [|t times] eqn:Htimes; [done|].
    injection Hhead as ->.
    assert (first_received (run init calls) = Some t_first) as Ha.
    { eapply first_received_run; [done|done|]. by eapply parsed_nonempty. }
    assert (last_received (run init calls) = Some t_last) as Hb.
    { by rewrite last_received_run, Htimes, Hlast. }
    split; [done|]. split; [done|]. by eapply get_elapsed_time_received_fields.
Qed.

End elapsed_facts.

(** Two [update_sent] calls out of chronological order, one second apart:
    the elapsed time is negative. A record with no [update_received] call
    raises for the other direction. *)
Lemma elapsed_time_first_to_last_witness :
  TimeRecord.get_elapsed_time_sent Sample.parse
    (TimeRecord.run TimeRecord.init
       [TimeRecord.UpdateSent "2016-06-22 10:00:01.000000";
        TimeRecord.UpdateSent "2016-06-22 10:00:00.000000"])
  = Return "-1 day, 23:59:59"
  ∧ TimeRecord.get_elapsed_time_received Sample.parse
      (TimeRecord.run TimeRecord.init
         [TimeRecord.UpdateSent "2016-06-22 10:00:01.000000";
          TimeRecord.UpdateSent "2016-06-22 10:00:00.000000"])
    = Raise TypeError.
Proof.
  pose proof (elapsed_time_first_to_last Sample.parse eq_refl
                [TimeRecord.UpdateSent "2016-06-22 10:00:01.000000";
                 TimeRecord.UpdateSent "2016-06-22 10:00:00.000000"])
    as (_ & Hsent & Hnever & _).
  split.
  - apply (Hsent "2016-06-22 10:00:01.000000" "2016-06-22 10:00:00.000000"
             63602272801000000 63602272800000000); reflexivity.
  - apply Hnever. reflexivity.
Defined.

Section first_and_last.

Import TimeRecord.

Implicit Types (self : TimeRecord.t) (time : string) (calls : list call).

Lemma run_app self calls calls' : run self (calls ++ calls') = run (run self calls) calls'.
Proof. unfold run. by rewrite fold_left_app. Qed.

Lemma sent_times_nonempty calls :
  Forall (λ c, call_time c ≠ "") calls → Forall (λ time, time ≠ "") (sent_times calls).
Proof.
  induction 1 as [|c calls Hc _ IH]; [constructor|].
  destruct c; [by constructor|done].
Qed.

Lemma received_times_nonempty calls :
  Forall (λ c, call_time c ≠ "") calls → Forall (λ time, time ≠ "") (received_times calls).
Proof.
  induction 1 as [|c calls Hc _ IH]; [constructor|].
  destruct c; [done|by constructor].
Qed.

Lemma first_sent_head calls :
  Forall (λ c, call_time c ≠ "") calls →
  first_sent (run init calls) = head (sent_times calls).
Proof.
  intros Htimes%sent_times_nonempty.
  destruct (sent_times calls) as [|time times] eqn:Hsent.
  - by apply first_sent_never.
  - apply Forall_cons in Htimes as [Htime _]. by eapply first_sent_run.
Qed.

Lemma first_received_head calls :
  Forall (λ c, call_time c ≠ "") calls →
  first_received (run init calls) = head (received_times calls).
Proof.
  intros Htimes%received_times_nonempty.
  destruct (received_times calls) as [|time times] eqn:Hreceived.
  - by apply first_received_never.
  - apply Forall_cons in Htimes as [Htime _]. by eapply first_received_run.
Qed.

Lemma head_nonempty (times : list string) :
  Forall (λ time, time ≠ "") times → head times ≠ None → truthy (head times) = true.
Proof.
  intros Htimes Hset. destruct times as [|time times]; [done|].
  apply Forall_cons in Htimes as [Htime _]. by apply truthy_nonempty.
Qed.

(** C6. Timestamps are not empty strings. On a record that has seen calls
    with timestamps since its creation, a [first_*] attribute that a call
    has set is changed by no later call, of either direction and with an
    earlier or a later time: it holds the time of the first call of its
    direction. Every call overwrites the [last_*] attribute of its direction
    with its argument, whatever the value before, so that after a sequence of
    calls it holds the time of the last call of its direction. *)
Theorem first_kept_last_overwritten (before later : list call) :
  Forall (λ c, call_time c ≠ "") (before ++ later) →
  let self := run init before in
  (first_sent self ≠ None → first_sent (run self later) = first_sent self)
  ∧ (first_received self ≠ None →
     first_received (run self later) = first_received self)
  ∧ first_sent self = head (sent_times before)
  ∧ first_received self = head (received_times before)
  ∧ (∀ record time, last_sent (update_sent record time) = Some time)
  ∧ (∀ record time, last_received (update_received record time) = Some time)
  ∧ last_sent (run self later)
    = from_option Some (last_sent self) (last (sent_times later))
  ∧ last_received (run self later)
    = from_option Some (last_received self) (last (received_times later)).
Proof.
  intros [Hbefore Hlater]%Forall_app. cbv zeta.
  pose proof (first_sent_head before Hbefore) as Hsent.
  pose proof (first_received_head before Hbefore) as Hreceived.
  split; [|split; [|split; [|split; [|split; [|split; [|split]]]]]].
  - intros Hset. apply first_sent_stable. rewrite Hsent in *.
    by apply head_nonempty; [apply sent_times_nonempty|].
  - intros Hset. apply first_received_stable. rewrite Hreceived in *.
    by apply head_nonempty; [apply received_times_nonempty|].
  - done.
  - done.
  - done.
  - done.
  - apply last_sent_run.
  - apply last_received_run.
Qed.

End first_and_last.

(** The first time of a record stays through later calls in both directions
    and with an earlier time, and the last time is that of the last call. *)
Lemma first_kept_last_overwritten_witness :
  TimeRecord.first_sent
    (TimeRecord.run
       (TimeRecord.run TimeRecord.init [TimeRecord.UpdateSent "2016-06-22 10:00:01.000000"])
       [TimeRecord.UpdateReceived "2016-06-22 10:00:02.000000";
        TimeRecord.UpdateSent "2016-06-22 10:00:00.000000"])
  = Some "2016-06-22 10:00:01.000000"
  ∧ TimeRecord.last_sent
      (TimeRecord.run
         (TimeRecord.run TimeRecord.init [TimeRecord.UpdateSent "2016-06-22 10:00:01.000000"])
         [TimeRecord.UpdateReceived "2016-06-22 10:00:02.000000";
          TimeRecord.UpdateSent "2016-06-22 10:00:00.000000"])
    = Some "2016-06-22 10:00:00.000000".
Proof.
  pose proof (first_kept_last_overwritten
                [TimeRecord.UpdateSent "2016-06-22 10:00:01.000000"]
                [TimeRecord.UpdateReceived "2016-06-22 10:00:02.000000";
                 TimeRecord.UpdateSent "2016-06-22 10:00:00.000000"])
    as Hcalls.
  destruct Hcalls as (Hkept & _ & _ & _ & _ & _ & Hlast & _).
  - repeat constructor; discriminate.
  - split.
    + rewrite Hkept; [reflexivity|discriminate].
    + rewrite Hlast. reflexivity.
Defined.

(** The test [if not self.first_sent] takes the empty string for an unset
    attribute: after a call with the empty string the attribute is taken for
    unset by the next call. *)
Example update_sent_empty_string :
  TimeRecord.first_sent (TimeRecord.update_sent TimeRecord.init "") = Some ""
  ∧ TimeRecord.first_sent
      (TimeRecord.update_sent (TimeRecord.update_sent TimeRecord.init "")
         "2016-06-22 10:00:00.000000")
    = Some "2016-06-22 10:00:00.000000".
Proof. split; reflexivity. Qed.

(** ** Rounding to a float *)

Section float_facts.

Import float.

Lemma round_half_even_spec num den :
  0 < den → 0 ≤ num →
  0 ≤ round_half_even num den
  ∧ 2 * (round_half_even num den * den - num) ≤ den
  ∧ 2 * (num - round_half_even num den * den) ≤ den.
Proof.
  intros Hden Hnum. unfold round_half_even.
  pose proof (Z.div_mod num den ltac:(lia)) as Hdiv.
  pose proof (Z.mod_pos_bound num den Hden) as Hmod.
  pose proof (Z.div_pos num den Hnum Hden) as Hq.
  destruct (2 * (num `mod` den) <? den) eqn:Hlow;
    [apply Z.ltb_lt in Hlow|apply Z.ltb_ge in Hlow].
  { nia. }
  destruct (den <? 2 * (num `mod` den)) eqn:Hhigh;
    [apply Z.ltb_lt in Hhigh|apply Z.ltb_ge in Hhigh].
  { nia. }
  destruct (Z.even (num `div` den)); nia.
Qed.

Lemma round_nearest_normal a b :
  0 < a → 0 < b → 2 ^ 52 * b ≤ a * 2 ^ 1074 → a < b * 2 ^ 1023 →
  ∃ X,
    round_nearest a b = Return (Qc_of_Z X / Qc_of_Z (2 ^ 1074))%Qc
    ∧ 0 ≤ X
    ∧ (X * b - a * 2 ^ 1074) * 2 ^ 53 ≤ a * 2 ^ 1074
    ∧ (a * 2 ^ 1074 - X * b) * 2 ^ 53 ≤ a * 2 ^ 1074.
Proof.
  intros Ha Hb Hlow Hhigh. unfold round_nearest.
  assert (2 ^ 2098 = 2 * (2 ^ 1023 * 2 ^ 1074)) as -> by (by vm_compute).
  assert (0 < 2 ^ 1074) as HP by (by apply Z.pow_pos_nonneg).
  set (P := 2 ^ 1074) in *. set (U := a * P) in *.
  assert (0 < 2 ^ 1023) as HT by (by apply Z.pow_pos_nonneg).
  set (T := 2 ^ 1023) in *.
  set (t := U `div` b).
  assert (t * b ≤ U < (t + 1) * b) as [Htl Hth].
  { unfold t. split.
    - rewrite Z.mul_comm. by apply Z.mul_div_le.
    - rewrite Z.mul_comm, Z.add_1_r. by apply Z.mul_succ_div_gt. }
  assert (2 ^ 52 ≤ t) as Ht.
  { apply Z.div_le_lower_bound; [done|]. lia. }
  destruct (Z.log2_spec t ltac:(lia)) as [HLl HLh].
  assert (52 ≤ Z.log2 t) as HL.
  { rewrite <- (Z.log2_pow2 52) by done. by apply Z.log2_le_mono. }
  rewrite Z.max_r by lia. set (e := Z.log2 t - 52) in *.
  assert (0 < 2 ^ e) as HE by (apply Z.pow_pos_nonneg; lia).
  assert (2 ^ Z.log2 t = 2 ^ 52 * 2 ^ e) as HLe.
  { rewrite <- Z.pow_add_r by lia. f_equal. lia. }
  assert (2 ^ Z.succ (Z.log2 t) = 2 * (2 ^ 52 * 2 ^ e)) as HLe'.
  { rewrite Z.pow_succ_r by lia. by rewrite HLe. }
  rewrite HLe in HLl. rewrite HLe' in HLh.
  set (E := 2 ^ e) in *.
  destruct (round_half_even_spec U (b * E)) as (Hm & Hup & Hdown); [nia|lia|].
  set (m := round_half_even U (b * E)) in *.
  assert (2 ^ 52 * (b * E) ≤ U) as Hden by nia.
  assert (U < 2 * (2 ^ 52 * (b * E))) as Hden' by nia.
  set (den := b * E) in *.
  assert (m * den < 2 * U) as Hmd by lia.
  assert (m * E < 2 * (T * P)) as Hno.
  { apply (Z.mul_lt_mono_pos_r b); [done|].
    replace (m * E * b) with (m * den) by (unfold den; ring). unfold U in *. nia. }
  rewrite (proj2 (Z.leb_gt _ _) Hno).
  exists (m * E). split; [done|]. split; [nia|].
  replace (m * E * b) with (m * den) by (unfold den; ring). lia.
Qed.

Lemma round_nearest_raises a b e : round_nearest a b = Raise e → e = OverflowError.
Proof.
  unfold round_nearest. cbv zeta. destruct (_ <=? _); [|done]. by intros [= <-].
Qed.

Lemma true_divide_raises a b e : b ≠ 0 → true_divide a b = Raise e → e = OverflowError.
Proof.
  intros Hb. unfold true_divide. rewrite (proj2 (Z.eqb_neq b 0)) by done.
  destruct (b <? 0); (destruct (_ =? 0); [done|]); (destruct (0 <? _);
    [apply round_nearest_raises|]);
    (destruct (round_nearest _ _) as [x|e'] eqn:Hround; [done|]);
    apply round_nearest_raises in Hround as ->; by intros [= <-].
Qed.

End float_facts.

Section fraction_facts.

Local Open Scope Qc_scope.

Lemma Qc_of_Z_nonzero n : n ≠ 0%Z → Qc_of_Z n ≠ 0.
Proof. intros Hn. rewrite <- Z2Qc_inj_0. by intros ?%Z2Qc_inj. Qed.

Lemma Qc_of_Z_pos n : (0 < n)%Z → 0 < Qc_of_Z n.
Proof. intros Hn. rewrite <- Z2Qc_inj_0. by apply (proj1 (Z2Qc_inj_lt 0 n)). Qed.

Lemma fraction_le (a b c d : Z) :
  (0 < b)%Z → (0 < d)%Z → (a * d ≤ c * b)%Z →
  Qc_of_Z a / Qc_of_Z b ≤ Qc_of_Z c / Qc_of_Z d.
Proof.
  intros Hb Hd Hcross.
  assert (Qc_of_Z b ≠ 0) as Hb' by (apply Qc_of_Z_nonzero; lia).
  assert (Qc_of_Z d ≠ 0) as Hd' by (apply Qc_of_Z_nonzero; lia).
  apply (Qcmult_le_mono_pos_r _ _ (Qc_of_Z b * Qc_of_Z d)).
  { rewrite <- Z2Qc_inj_mul. apply Qc_of_Z_pos. lia. }
  replace (Qc_of_Z a / Qc_of_Z b * (Qc_of_Z b * Qc_of_Z d)) with (Qc_of_Z (a * d))
    by (rewrite Z2Qc_inj_mul; by field).
  replace (Qc_of_Z c / Qc_of_Z d * (Qc_of_Z b * Qc_of_Z d)) with (Qc_of_Z (c * b))
    by (rewrite Z2Qc_inj_mul; by field).
  by apply (proj1 (Z2Qc_inj_le _ _)).
Qed.

Lemma fraction_within (X P a b C : Z) :
  (0 < b)%Z → (0 < P)%Z → (0 < C)%Z →
  ((X * b - a * P) * C ≤ a * P)%Z → ((a * P - X * b) * C ≤ a * P)%Z →
  within C (Qc_of_Z a / Qc_of_Z b) (Qc_of_Z X / Qc_of_Z P).
Proof.
  intros Hb HP HC Hup Hdown.
  assert (Qc_of_Z b ≠ 0) as Hb' by (apply Qc_of_Z_nonzero; lia).
  assert (Qc_of_Z C ≠ 0) as HC' by (apply Qc_of_Z_nonzero; lia).
  split.
  - replace ((1 - / Qc_of_Z C) * (Qc_of_Z a / Qc_of_Z b))
      with (Qc_of_Z ((C - 1) * a) / Qc_of_Z (C * b)).
    + apply fraction_le; [lia|lia|nia].
    + rewrite !Z2Qc_inj_mul, Z2Qc_inj_sub, Z2Qc_inj_1. by field.
  - replace ((1 + / Qc_of_Z C) * (Qc_of_Z a / Qc_of_Z b))
      with (Qc_of_Z ((C + 1) * a) / Qc_of_Z (C * b)).
    + apply fraction_le; [lia|lia|nia].
    + rewrite !Z2Qc_inj_mul, Z2Qc_inj_add, Z2Qc_inj_1. by field.
Qed.

End fraction_facts.

(** ** [statistics] *)

Section statistics_facts.

Import statistics.
Local Open Scope Qc_scope.

Lemma true_divide_positive a b :
  (0 < a)%Z → (0 < b)%Z → float.true_divide a b = float.round_nearest a b.
Proof.
  intros Ha Hb. unfold float.true_divide.
  rewrite (proj2 (Z.eqb_neq b 0)), (proj2 (Z.ltb_ge b 0)) by lia.
  by rewrite (proj2 (Z.eqb_neq a 0)), (proj2 (Z.ltb_lt 0 a)) by lia.
Qed.

Lemma true_divide_within a b :
  (0 < a)%Z → (0 < b)%Z → (2 ^ 52 * b ≤ a * 2 ^ 1074)%Z → (a < b * 2 ^ 1023)%Z →
  ∃ x, float.true_divide a b = Return x
       ∧ 0 ≤ x ∧ within (2 ^ 53) (Qc_of_Z a / Qc_of_Z b) x.
Proof.
  intros Ha Hb Hlow Hhigh. rewrite true_divide_positive by done.
  destruct (round_nearest_normal a b) as (X & -> & HX & Hup & Hdown); [done..|].
  eexists. split; [done|]. split.
  - apply Qcmult_nonneg_nonneg.
    + rewrite <- Z2Qc_inj_0. by apply (proj1 (Z2Qc_inj_le _ _)).
    + apply Qclt_le_weak, Qcinv_pos, Qc_of_Z_pos. by apply Z.pow_pos_nonneg.
  - apply fraction_within; [done|by apply Z.pow_pos_nonneg|done|done|done].
Qed.

Lemma len_nonneg data : (0 ≤ len data)%Z.
Proof. unfold len. lia. Qed.

Lemma sum_bounds B data :
  Forall (λ x, 0 ≤ x < B)%Z data →
  (0 ≤ sum data)%Z ∧ (sum data ≤ len data * (B - 1))%Z.
Proof.
  unfold len. induction 1 as [|x data Hx _ IH]; simpl; [done|]. lia.
Qed.

Lemma within_refl C q : (0 < C)%Z → 0 ≤ q → within C q q.
Proof.
  intros HC Hq.
  assert (0 ≤ / Qc_of_Z C) as Heps by (by apply Qclt_le_weak, Qcinv_pos, Qc_of_Z_pos).
  split.
  - replace q with (1 * q) at 2 by ring. apply Qcmult_le_mono_nonneg_r; [done|].
    apply Qcle_minus_iff. by replace (1 + - (1 - / Qc_of_Z C)) with (/ Qc_of_Z C) by ring.
  - replace q with (1 * q) at 1 by ring. apply Qcmult_le_mono_nonneg_r; [done|].
    apply Qcle_minus_iff. by replace (1 + / Qc_of_Z C + - 1) with (/ Qc_of_Z C) by ring.
Qed.

Lemma mean_in_range data :
  data ≠ [] → (len data < 2 ^ 63)%Z → Forall (λ x, 0 ≤ x < 2 ^ 1000)%Z data →
  ∃ x, mean data = Return x
       ∧ 0 ≤ x
       ∧ within (2 ^ 53) (Qc_of_Z (sum data) / Qc_of_Z (len data)) x
       ∧ ((sum data `mod` len data = 0)%Z →
          x = Qc_of_Z (sum data) / Qc_of_Z (len data)).
Proof.
  intros Hdata Hlen Hrange.
  assert (1 ≤ len data)%Z as Hn.
  { unfold len. destruct data; [done|]. simpl. lia. }
  destruct (sum_bounds _ _ Hrange) as [Hsum Hsum'].
  unfold mean. rewrite (proj2 (Z.ltb_ge _ _) Hn).
  set (n := len data) in *. set (S := sum data) in *.
  pose proof (Z.gcd_nonneg S n) as Hg.
  assert (Z.gcd S n ≠ 0)%Z as Hg' by (intros [_ ?]%Z.gcd_eq_0; lia).
  destruct (Z.gcd_divide_l S n) as [num Hnum], (Z.gcd_divide_r S n) as [den Hden].
  cbv zeta. set (g := Z.gcd S n) in *.
  assert (S `div` g = num)%Z as -> by (symmetry; apply Z.div_unique_exact; lia).
  assert (n `div` g = den)%Z as -> by (symmetry; apply Z.div_unique_exact; lia).
  assert (0 < den)%Z as Hden_pos by nia.
  assert (0 ≤ num)%Z as Hnum_nonneg by nia.
  assert (Qc_of_Z S / Qc_of_Z n = Qc_of_Z num / Qc_of_Z den) as Hratio.
  { rewrite Hnum, Hden, !Z2Qc_inj_mul.
    assert (Qc_of_Z g ≠ 0) by (by apply Qc_of_Z_nonzero).
    assert (Qc_of_Z den ≠ 0) by (apply Qc_of_Z_nonzero; lia).
    by field. }
  destruct (den =? 1)%Z eqn:Hone; [apply Z.eqb_eq in Hone|apply Z.eqb_neq in Hone].
  - exists (Qc_of_Z num).
    assert (Qc_of_Z S / Qc_of_Z n = Qc_of_Z num) as Hexact.
    { rewrite Hratio, Hone, Z2Qc_inj_1. unfold Qcdiv. change (/ 1) with 1. ring. }
    assert (0 ≤ Qc_of_Z num).
    { rewrite <- Z2Qc_inj_0. by apply (proj1 (Z2Qc_inj_le _ _)). }
    rewrite Hexact. split; [done|]. split; [done|]. split; [|done].
    by apply within_refl.
  - assert (num ≠ 0)%Z as Hnum_nonzero.
    { intros ->. assert (S = 0)%Z as HS by lia.
      unfold g in Hden. rewrite HS, Z.gcd_0_l, Z.abs_eq in Hden by lia. nia. }
    destruct (true_divide_within num den) as (x & Hx & Hx0 & Hwithin); [lia|done| | |].
    + assert (2 ^ 52 * 2 ^ 63 ≤ 2 ^ 1074)%Z by (by vm_compute). nia.
    + assert (2 ^ 1000 ≤ 2 ^ 1023)%Z by (by vm_compute).
      apply (Z.mul_lt_mono_pos_r g); [lia|]. rewrite <- Hnum.
      assert (S < n * 2 ^ 1000)%Z by lia. nia.
    + exists x. rewrite Hratio. split; [done|]. split; [done|]. split; [done|].
      intros Hmod. destruct Hone.
      apply Z.mod_divide in Hmod; [|lia].
      assert (g = n) as Hgn.
      { unfold g. rewrite Z.gcd_comm. apply Z.divide_gcd_iff; [lia|done]. }
      rewrite Hgn in Hden. nia.
Qed.

Lemma len_app data x : len (data ++ [x]) = (len data + 1)%Z.
Proof. unfold len. rewrite length_app. simpl. lia. Qed.

Lemma len_positive data : data ≠ [] → (1 ≤ len data)%Z.
Proof. unfold len. destruct data; [done|]. simpl. lia. Qed.

Lemma mean_empty data : (len data < 1)%Z → mean data = Raise StatisticsError.
Proof. intros Hn. unfold mean. by apply Z.ltb_lt in Hn as ->. Qed.

Lemma mean_single x : mean [x] = Return (Qc_of_Z x).
Proof.
  unfold mean. change (len [x]) with 1%Z. change (sum [x]) with (x + 0)%Z.
  by rewrite Z.add_0_r, Z.gcd_1_r, !Z.div_1_r.
Qed.

Lemma mean_raises data e : data ≠ [] → mean data = Raise e → e = OverflowError.
Proof.
  intros Hn%len_positive. unfold mean. rewrite (proj2 (Z.ltb_ge _ _) Hn). cbv zeta.
  destruct (_ =? 1)%Z; [done|]. apply true_divide_raises.
  pose proof (Z.gcd_nonneg (sum data) (len data)) as Hg.
  destruct (Z.gcd_divide_r (sum data) (len data)) as [den Hden].
  assert (Z.gcd (sum data) (len data) ≠ 0)%Z as Hg' by (intros [_ ?]%Z.gcd_eq_0; lia).
  set (g := Z.gcd (sum data) (len data)) in *.
  assert (len data `div` g = den)%Z as -> by (symmetry; apply Z.div_unique_exact; lia).
  nia.
Qed.

Lemma stdev_few data : (len data < 2)%Z → stdev data = Raise StatisticsError.
Proof. intros Hn. unfold stdev. by apply Z.ltb_lt in Hn as ->. Qed.

End statistics_facts.

Section sqrt_facts.

Import statistics.









End sqrt_facts.

Section deviation_facts.

Import statistics.
Local Open Scope Qc_scope.










End deviation_facts.


(** ** [MachineNode] *)

Section machine_node_facts.

Import MachineNode.

Implicit Types (self : MachineNode.t) (d : gmap string Z) (addr peer : string).

Lemma total_empty : total ∅ = 0.
Proof. apply map_fold_empty. Qed.

Lemma total_insert d k freq : d !! k = None → total (<[k := freq]> d) = freq + total d.
Proof. intros Hk. unfold total. rewrite map_fold_insert_L; [done| |done]. intros. lia. Qed.

Lemma total_incr d k : total (incr d k) = total d + 1.
Proof.
  unfold incr. destruct (d !! k) as [freq|] eqn:Hk; simpl.
  - rewrite <- (insert_delete_id d k freq) at 2 by done.
    rewrite <- insert_delete_eq.
    rewrite !total_insert by apply lookup_delete_eq. lia.
  - rewrite total_insert by done. lia.
Qed.

Lemma incr_lookup d k : incr d k !! k = Some (default 0 (d !! k) + 1).
Proof. apply lookup_insert_eq. Qed.

Lemma incr_lookup_ne d k k' : k ≠ k' → incr d k !! k' = d !! k'.
Proof. apply lookup_insert_ne. Qed.

(** C2. Every node reached from a freshly created one by calls of
    [add_pcap_record] has [num_packets] equal to the number of recorded
    lengths and to the sum of the frequencies of both per-peer tables. *)
Theorem num_packets_invariant addr self :
  reachable addr self →
  num_packets self = Z.of_nat (List.length (packet_lengths self))
  ∧ num_packets self
    = total (machines_sent_to self) + total (machines_received_from self).
Proof.
  induction 1 as [|self length peer receiving pcap _ [IHlen IHsum]].
  - simpl. by rewrite total_empty.
  - unfold add_pcap_record. destruct receiving; simpl;
      rewrite length_app, total_incr; simpl; lia.
Qed.

(** C10. A call without a pcap record counts the packet, appends its length
    and increments the frequency of the peer in the table of the direction,
    leaving the other table and the time record as they were; with a pcap
    record the time record is updated in the direction of the call with the
    date and time of the record. *)
Theorem add_pcap_record_without_pcap self length peer receiving :
  let self' := add_pcap_record self length peer receiving None in
  let table := if receiving then machines_received_from else machines_sent_to in
  let other := if receiving then machines_sent_to else machines_received_from in
  num_packets self' = num_packets self + 1
  ∧ packet_lengths self' = (packet_lengths self ++ [length])%list
  ∧ table self' !! peer = Some (default 0 (table self !! peer) + 1)
  ∧ (∀ k, k ≠ peer → table self' !! k = table self !! k)
  ∧ other self' = other self
  ∧ machine_addr self' = machine_addr self
  ∧ time_record self' = time_record self
  ∧ ∀ pcap,
      time_record (add_pcap_record self length peer receiving (Some pcap))
      = if receiving
        then TimeRecord.update_received (time_record self) (Pcap.date_time pcap)
        else TimeRecord.update_sent (time_record self) (Pcap.date_time pcap).
Proof.
  unfold add_pcap_record. destruct receiving; simpl;
    (repeat split; [apply incr_lookup|intros k Hk; by apply incr_lookup_ne]).
Qed.

End machine_node_facts.

(** A node with one packet sent and one received. *)
Lemma num_packets_invariant_witness :
  MachineNode.num_packets
    (MachineNode.add_pcap_record
       (MachineNode.add_pcap_record (MachineNode.init "10.0.0.1") 100 "10.0.0.2" false None)
       50 "8.8.8.8" true None)
  = MachineNode.total {["10.0.0.2" := 1]} + MachineNode.total {["8.8.8.8" := 1]}.
Proof.
  apply (num_packets_invariant "10.0.0.1"
           (MachineNode.add_pcap_record
              (MachineNode.add_pcap_record (MachineNode.init "10.0.0.1")
                 100 "10.0.0.2" false None)
              50 "8.8.8.8" true None)).
  do 2 apply MachineNode.reachable_add. apply MachineNode.reachable_init.
Defined.

(** A packet received without a pcap record leaves the frequencies of the
    other peers as they were. *)
Lemma add_pcap_record_without_pcap_witness :
  MachineNode.machines_received_from
    (MachineNode.add_pcap_record (MachineNode.init "10.0.0.1") 50 "8.8.8.8" true None)
    !! "10.0.0.2"
  = None.
Proof.
  pose proof (add_pcap_record_without_pcap (MachineNode.init "10.0.0.1") 50 "8.8.8.8" true)
    as (_ & _ & _ & Hother & _).
  rewrite (Hother "10.0.0.2"); [reflexivity|discriminate].
Defined.

Section machine_node_statistics.

Import MachineNode.
Local Open Scope Qc_scope.

Implicit Types (self : MachineNode.t).

(** A computed result is the given number when the two are equal as
    fractions. *)
Lemma result_number (r : result Qc) (q : Qc) :
  match r with
  | Return x => Qeq_bool x q = true
  | Raise _ => False
  end →
  r = Return q.
Proof.
  destruct r as [x|]; [|done]. intros Heq%Qeq_bool_eq. f_equal. by apply Qc_is_canon.
Qed.




End machine_node_statistics.

(** The floats that the library returns for the lengths 100, 200 and 50:
    116.66666666666667 and 76.37626158259734. *)
Example mean_100_200_50 :
  statistics.mean [100; 200; 50]
  = Return (Qc_of_Z 8209686820727467 / Qc_of_Z 70368744177664)%Qc.
Proof. apply result_number. by vm_compute. Qed.



(** A mean that is an integer is returned as it is, also beyond the 53
    bits of a float; a mean that is not is rounded. *)
Example mean_exact :
  statistics.mean [2 ^ 60 + 1; 2 ^ 60 + 3] = Return (Qc_of_Z (2 ^ 60 + 2))
  ∧ statistics.mean [2 ^ 54 + 1; 2 ^ 54 + 2] = Return (Qc_of_Z (2 ^ 54)).
Proof. split; apply result_number; by vm_compute. Qed.

(** Equal lengths have the standard deviation 0. *)
Example stdev_equal_lengths : statistics.stdev [1500; 1500; 1500] = Return 0%Qc.
Proof. apply result_number. by vm_compute. Qed.

(** Beyond the range of a float the library raises [OverflowError]:
    [get_mean_packet_len] raises it, and [get_packet_len_std_dev] returns the
    error message of its [except] branch, also for two lengths. *)
Example statistics_overflow :
  MachineNode.get_mean_packet_len
    (MachineNode.mk "10.0.0.1" 2 [10 ^ 310; 10 ^ 310 + 1] ∅ ∅ TimeRecord.init)
  = Raise OverflowError
  ∧ MachineNode.get_packet_len_std_dev
      (MachineNode.mk "10.0.0.1" 2 [0; 10 ^ 310] ∅ ∅ TimeRecord.init)
    = MachineNode.Message "Error retrieving standard deviation.".
Proof. split; by vm_compute. Qed.



(** ** [FlowRecord] *)

Section flow_record_facts.

Import FlowRecord.

Implicit Types (flow : FlowRecord.t) (src dest addr : string) (pcap : option Pcap.t).

Lemma flow_eq flow flow' : machines flow = machines flow' → flow = flow'.
Proof. destruct flow, flow'. simpl. by intros ->. Qed.

Lemma update_outside flow src dest length pcap :
  update flow src false dest false length pcap = flow.
Proof. done. Qed.

Lemma update_source flow src dest length pcap :
  records_sent flow (update flow src true dest false length pcap) src dest length pcap.
Proof.
  unfold records_sent, node_or_new, update.
  destruct (machines flow !! src) as [node|]; simpl;
    (split; [apply lookup_insert_eq|intros addr Hne; by apply lookup_insert_ne]).
Qed.

Lemma update_destination flow src dest length pcap :
  records_received flow (update flow src false dest true length pcap) dest src length pcap.
Proof.
  unfold records_received, node_or_new, update.
  destruct (machines flow !! dest) as [node|]; simpl;
    (split; [apply lookup_insert_eq|intros addr Hne; by apply lookup_insert_ne]).
Qed.

Lemma update_both flow src dest length pcap :
  update flow src true dest true length pcap
  = update (update flow src true dest false length pcap) src false dest true length pcap.
Proof. done. Qed.

(** C1. The four cases of [update]: a source in the network has its node
    record a packet sent to the destination, a destination in the network
    has its node record a packet received from the source, in that order;
    the node is the registered one, or one created for the address when
    none is registered; every other entry of the registry is kept, and with
    neither address in the network the registry is unchanged. *)
Theorem update_truth_table flow src s_in_net dest d_in_net length pcap :
  let flow' := update flow src s_in_net dest d_in_net length pcap in
  match s_in_net, d_in_net with
  | true, true =>
      (∃ mid, records_sent flow mid src dest length pcap
              ∧ records_received mid flow' dest src length pcap)
      ∧ (src ≠ dest →
         machines flow' !! src
         = Some (MachineNode.add_pcap_record (node_or_new flow src) length dest false pcap)
         ∧ machines flow' !! dest
           = Some (MachineNode.add_pcap_record (node_or_new flow dest) length src true pcap))
      ∧ (∀ addr, addr ≠ src → addr ≠ dest → machines flow' !! addr = machines flow !! addr)
  | true, false => records_sent flow flow' src dest length pcap
  | false, true => records_received flow flow' dest src length pcap
  | false, false => flow' = flow
  end.
Proof.
  destruct s_in_net, d_in_net; cbv beta iota zeta.
  - rewrite update_both.
    pose proof (update_source flow src dest length pcap) as [Hsrc Hframe].
    pose proof (update_destination (update flow src true dest false length pcap)
                  src dest length pcap) as [Hdest Hframe'].
    split; [|split].
    + eexists. split; [by apply update_source|by apply update_destination].
    + intros Hne. split.
      * by rewrite Hframe', Hsrc.
      * rewrite Hdest. unfold node_or_new. by rewrite Hframe.
    + intros addr Hsrc' Hdest'. by rewrite Hframe', Hframe.
  - apply update_source.
  - apply update_destination.
  - done.
Qed.

(** C9. [update] with neither address in the network returns the registry
    it was given, and [get_machine_node] returns the entry of the address,
    none for an address that is not registered, with the registry as it
    was. *)
Theorem update_outside_get_machine_node_frame flow src dest length pcap addr :
  update flow src false dest false length pcap = flow
  ∧ (get_machine_node flow addr).2 = flow
  ∧ (get_machine_node flow addr).1 = machines flow !! addr
  ∧ (addr ∉ dom (machines flow) → get_machine_node flow addr = (None, flow)).
Proof.
  unfold get_machine_node. split; [done|].
  destruct (machines flow !! addr) as [node|] eqn:Haddr; simpl.
  - repeat split. intros []. apply elem_of_dom. by eexists.
  - done.
Qed.

Lemma node_or_new_reachable flow addr :
  nodes_reachable flow → MachineNode.reachable addr (node_or_new flow addr).
Proof.
  intros Hflow. unfold node_or_new.
  destruct (machines flow !! addr) as [node|] eqn:Haddr; simpl;
    [by apply Hflow|constructor].
Qed.

Lemma nodes_reachable_sent flow flow' src dest length pcap :
  records_sent flow flow' src dest length pcap →
  nodes_reachable flow → nodes_reachable flow'.
Proof.
  intros [Hsrc Hframe] Hflow addr node. destruct (decide (addr = src)) as [->|Hne].
  - rewrite Hsrc. intros Hnode. apply (inj Some) in Hnode. rewrite <- Hnode.
    by apply MachineNode.reachable_add, node_or_new_reachable.
  - rewrite Hframe by done. apply Hflow.
Qed.

Lemma nodes_reachable_received flow flow' dest src length pcap :
  records_received flow flow' dest src length pcap →
  nodes_reachable flow → nodes_reachable flow'.
Proof.
  intros [Hdest Hframe] Hflow addr node. destruct (decide (addr = dest)) as [->|Hne].
  - rewrite Hdest. intros Hnode. apply (inj Some) in Hnode. rewrite <- Hnode.
    by apply MachineNode.reachable_add, node_or_new_reachable.
  - rewrite Hframe by done. apply Hflow.
Qed.

(** Every registry built by [update] from the empty one has only such
    nodes. *)
Lemma registry_nodes_reachable flow : reachable flow → nodes_reachable flow.
Proof.
  induction 1 as [|flow src s_in_net dest d_in_net length pcap _ IH].
  - intros addr node. simpl. by rewrite lookup_empty.
  - destruct s_in_net, d_in_net.
    + rewrite update_both.
      eapply nodes_reachable_received; [apply update_destination|].
      eapply nodes_reachable_sent; [apply update_source|done].
    + eapply nodes_reachable_sent; [apply update_source|done].
    + eapply nodes_reachable_received; [apply update_destination|done].
    + by rewrite update_outside.
Qed.

End flow_record_facts.

(** An address that was never registered is not found in the registry built
    by one update. *)
Lemma update_outside_get_machine_node_frame_witness :
  FlowRecord.get_machine_node
    (FlowRecord.update FlowRecord.init "10.0.0.1" true "8.8.8.8" false 100 None)
    "8.8.8.8"
  = (None, FlowRecord.update FlowRecord.init "10.0.0.1" true "8.8.8.8" false 100 None).
Proof.
  apply (update_outside_get_machine_node_frame
           (FlowRecord.update FlowRecord.init "10.0.0.1" true "8.8.8.8" false 100 None)
           "10.0.0.1" "8.8.8.8" 100 None "8.8.8.8").
  apply not_elem_of_dom. reflexivity.
Defined.

(** Two distinct addresses in the network: each node records its side. *)
Lemma update_truth_table_witness :
  FlowRecord.machines
    (FlowRecord.update FlowRecord.init "10.0.0.1" true "10.0.0.2" true 100 None)
    !! "10.0.0.2"
  = Some (MachineNode.add_pcap_record (MachineNode.init "10.0.0.2") 100 "10.0.0.1" true None).
Proof.
  pose proof (update_truth_table FlowRecord.init "10.0.0.1" true "10.0.0.2" true 100 None)
    as (_ & Hdistinct & _).
  destruct Hdistinct as [_ Hdest]; [discriminate|]. exact Hdest.
Defined.

(** ** [analyze_pcap] *)

(** Evaluates the lookups of a dictionary built by insertions at keys that
    are equal or known to differ. *)
Ltac lookups :=
  repeat (first [ rewrite lookup_empty
                | rewrite lookup_insert_eq
                | rewrite lookup_insert_ne by congruence ];
          simpl).

Section analyze_facts.

Variable literal_eval : string → result Pcap.t.

Implicit Types (network_machines : list string) (flow : FlowRecord.t).

Lemma in_network_membership network_machines addr :
  in_network network_machines addr
  = bool_decide (addr ∈ (list_to_set network_machines : gset string)).
Proof. unfold in_network. apply bool_decide_ext. by rewrite elem_of_list_to_set. Qed.

(** C3. On every message body, [analyze_pcap] with its four branches gives
    what the single call of [FlowRecord.update] with the two membership
    tests gives: the same registry, or the same exception when the body does
    not decode. *)
Theorem analyze_pcap_dispatch network_machines body flow :
  analyze_pcap literal_eval network_machines body flow
  = dispatch literal_eval (list_to_set network_machines) body flow.
Proof.
  unfold analyze_pcap, dispatch.
  destruct (literal_eval body) as [pcap|e]; simpl; [|done].
  rewrite <- !in_network_membership.
  by destruct (in_network network_machines (Pcap.src_ip pcap)),
              (in_network network_machines (Pcap.dest_ip pcap)).
Qed.

Lemma in_network_head addr network_machines :
  in_network (addr :: network_machines) addr = true.
Proof. apply bool_decide_eq_true_2. set_solver. Qed.

Lemma in_network_pair a b : in_network [a; b] b = true.
Proof. apply bool_decide_eq_true_2. set_solver. Qed.

Lemma in_network_neither a b c : c ≠ a → c ≠ b → in_network [a; b] c = false.
Proof.
  intros Ha Hb. apply bool_decide_eq_false_2.
  rewrite !elem_of_cons, elem_of_nil. tauto.
Qed.

(** The registry after the three messages of the scenario. *)
Lemma scenario_registry A B C body1 body2 body3 date1 time1 date2 time2 date3 time3 :
  A ≠ B → A ≠ C → B ≠ C →
  literal_eval body1 = Return (Pcap.mk A B 100 date1 time1) →
  literal_eval body2 = Return (Pcap.mk A B 200 date2 time2) →
  literal_eval body3 = Return (Pcap.mk C A 50 date3 time3) →
  ∃ flow nodeA nodeB,
    consume literal_eval [A; B] [body1; body2; body3] FlowRecord.init = Return flow
    ∧ FlowRecord.machines flow !! A = Some nodeA
    ∧ FlowRecord.machines flow !! B = Some nodeB
    ∧ FlowRecord.machines flow !! C = None
    ∧ MachineNode.num_packets nodeA = 3
    ∧ MachineNode.packet_lengths nodeA = [100; 200; 50]
    ∧ MachineNode.machines_sent_to nodeA !! B = Some 2
    ∧ MachineNode.machines_received_from nodeA !! C = Some 1
    ∧ MachineNode.num_packets nodeB = 2.
Proof.
  intros HAB HAC HBC Hbody1 Hbody2 Hbody3.
  unfold consume, analyze_pcap. rewrite Hbody1. simpl.
  rewrite in_network_head, in_network_pair. simpl.
  rewrite Hbody2. simpl. rewrite in_network_head, in_network_pair. simpl.
  rewrite Hbody3. simpl. rewrite in_network_head, in_network_neither by done. simpl.
  unfold FlowRecord.update. simpl. lookups.
  eexists _, _, _. split; [done|]. simpl. lookups.
  split; [done|]. split; [done|]. split; [done|].
  simpl. unfold incr. lookups. done.
Qed.

End analyze_facts.

Section scenario.

Local Open Scope Qc_scope.

(** The float nearest to a third of 350, which Python prints as
    116.66666666666667. *)
Lemma nearest_third_of_350 :
  within (2 ^ 53) (Qc_of_Z 350 / Qc_of_Z 3)
    (Qc_of_Z 8209686820727467 / Qc_of_Z 70368744177664)
  ∧ Qc_of_Z 116665 / Qc_of_Z 1000 ≤ Qc_of_Z 8209686820727467 / Qc_of_Z 70368744177664
  ∧ Qc_of_Z 8209686820727467 / Qc_of_Z 70368744177664 < Qc_of_Z 116675 / Qc_of_Z 1000.
Proof. split; [split|split]; by vm_compute. Qed.

(** C8. From the empty registry, with [A] and [B] the network machines and
    [C] outside, the messages [A] to [B] of length 100, [A] to [B] of length
    200 and [C] to [A] of length 50 leave a node for [A] with 3 packets, 2
    sent to [B] and 1 received from [C], a node for [B] with 2 packets, and
    no node for [C]. The mean length of the node of [A] is the float nearest
    to 350/3, which is 116.67 to two decimal places. *)
Theorem scenario_three_messages (literal_eval : string → result Pcap.t)
    A B C body1 body2 body3 date1 time1 date2 time2 date3 time3 :
  A ≠ B → A ≠ C → B ≠ C →
  literal_eval body1 = Return (Pcap.mk A B 100 date1 time1) →
  literal_eval body2 = Return (Pcap.mk A B 200 date2 time2) →
  literal_eval body3 = Return (Pcap.mk C A 50 date3 time3) →
  ∃ flow nodeA nodeB mean,
    consume literal_eval [A; B] [body1; body2; body3] FlowRecord.init = Return flow
    ∧ FlowRecord.get_machine_node flow A = (Some nodeA, flow)
    ∧ MachineNode.num_packets nodeA = 3%Z
    ∧ MachineNode.machines_sent_to nodeA !! B = Some 2%Z
    ∧ MachineNode.machines_received_from nodeA !! C = Some 1%Z
    ∧ MachineNode.get_mean_packet_len nodeA = Return mean
    ∧ mean = Qc_of_Z 8209686820727467 / Qc_of_Z 70368744177664
    ∧ within (2 ^ 53) (Qc_of_Z 350 / Qc_of_Z 3) mean
    ∧ Qc_of_Z 116665 / Qc_of_Z 1000 ≤ mean < Qc_of_Z 116675 / Qc_of_Z 1000
    ∧ FlowRecord.get_machine_node flow B = (Some nodeB, flow)
    ∧ MachineNode.num_packets nodeB = 2%Z
    ∧ FlowRecord.get_machine_node flow C = (None, flow).
Proof.
  intros HAB HAC HBC Hbody1 Hbody2 Hbody3.
  destruct (scenario_registry literal_eval A B C body1 body2 body3
              date1 time1 date2 time2 date3 time3) as
    (flow & nodeA & nodeB & Hflow & HA & HB & HC & HnA & Hlengths & HsentB & HreceivedC & HnB);
    [done..|].
  exists flow, nodeA, nodeB, (Qc_of_Z 8209686820727467 / Qc_of_Z 70368744177664).
  unfold FlowRecord.get_machine_node, MachineNode.get_mean_packet_len.
  rewrite HA, HB, HC, Hlengths.
  destruct nearest_third_of_350 as (Hwithin & Hlow & Hhigh).
  repeat split; first [ done | apply mean_100_200_50 ].
Qed.

End scenario.

(** The scenario on the three sample messages. *)
Lemma scenario_three_messages_witness :
  ∃ flow nodeA,
    Sample.flow = Return flow
    ∧ FlowRecord.get_machine_node flow Sample.A = (Some nodeA, flow)
    ∧ MachineNode.num_packets nodeA = 3
    ∧ MachineNode.get_mean_packet_len nodeA
      = Return (Qc_of_Z 8209686820727467 / Qc_of_Z 70368744177664)%Qc
    ∧ FlowRecord.get_machine_node flow Sample.C = (None, flow).
Proof.
  destruct (scenario_three_messages (Sample.literal_eval Sample.table)
              Sample.A Sample.B Sample.C Sample.body1 Sample.body2 Sample.body3
              "2016-06-22" "10:00:00.000000" "2016-06-22" "10:00:01.500000"
              "2016-06-22" "10:00:02.000000")
    as (flow & nodeA & nodeB & mean & Hflow & HA & HnA & _ & _ & Hmean & -> & _ & _
        & _ & _ & HC);
    [discriminate|discriminate|discriminate|reflexivity|reflexivity|reflexivity|].
  exists flow, nodeA.
  split; [exact Hflow|]. split; [exact HA|]. split; [exact HnA|].
  split; [exact Hmean|exact HC].
Defined.

(** * Further properties *)

(** ** [TimeRecord]: the two directions, and the failures of the elapsed time *)

Section time_record_directions.

Import TimeRecord.

Implicit Types (self : TimeRecord.t) (time : string) (calls : list call).

Lemma sent_frame self calls :
  sent_times calls = [] →
  first_sent (run self calls) = first_sent self
  ∧ last_sent (run self calls) = last_sent self.
Proof.
  revert self. induction calls as [|c calls IH]; intros self Hnone; [done|].
  destruct c as [t|t]; [done|]. rewrite run_cons.
  destruct (IH (apply self (UpdateReceived t)) Hnone) as [-> ->].
  simpl. unfold update_received. by destruct (truthy (first_received self)).
Qed.

Lemma received_frame self calls :
  received_times calls = [] →
  first_received (run self calls) = first_received self
  ∧ last_received (run self calls) = last_received self.
Proof.
  revert self. induction calls as [|c calls IH]; intros self Hnone; [done|].
  destruct c as [t|t]; [|done]. rewrite run_cons.
  destruct (IH (apply self (UpdateSent t)) Hnone) as [-> ->].
  simpl. unfold update_sent. by destruct (truthy (first_sent self)).
Qed.

Lemma first_sent_is_Some_kept self calls :
  is_Some (first_sent self) → is_Some (first_sent (run self calls)).
Proof.
  revert self. induction calls as [|c calls IH]; intros self Hset; [done|].
  rewrite run_cons. apply IH. destruct c; simpl; unfold update_sent, update_received.
  - by destruct (truthy (first_sent self)).
  - by destruct (truthy (first_received self)).
Qed.

Lemma first_received_is_Some_kept self calls :
  is_Some (first_received self) → is_Some (first_received (run self calls)).
Proof.
  revert self. induction calls as [|c calls IH]; intros self Hset; [done|].
  rewrite run_cons. apply IH. destruct c; simpl; unfold update_sent, update_received.
  - by destruct (truthy (first_sent self)).
  - by destruct (truthy (first_received self)).
Qed.

Lemma first_sent_set self calls :
  sent_times calls ≠ [] → is_Some (first_sent (run self calls)).
Proof.
  revert self. induction calls as [|c calls IH]; intros self Hsome; [done|].
  rewrite run_cons. destruct c as [t|t]; simpl.
  - apply first_sent_is_Some_kept. unfold update_sent.
    destruct (first_sent self) as [[|? ?]|] eqn:Hfirst; simpl; rewrite ?Hfirst; by eexists.
  - by apply IH.
Qed.

Lemma first_received_set self calls :
  received_times calls ≠ [] → is_Some (first_received (run self calls)).
Proof.
  revert self. induction calls as [|c calls IH]; intros self Hsome; [done|].
  rewrite run_cons. destruct c as [t|t]; simpl.
  - by apply IH.
  - apply first_received_is_Some_kept. unfold update_received.
    destruct (first_received self) as [[|? ?]|] eqn:Hfirst; simpl; rewrite ?Hfirst;
      by eexists.
Qed.

Lemma last_sent_set self calls :
  sent_times calls ≠ [] → is_Some (last_sent (run self calls)).
Proof.
  intros Hsome. rewrite last_sent_run.
  destruct (last (sent_times calls)) as [t|] eqn:Hlast; [done|].
  by apply last_None in Hlast.
Qed.

Lemma last_received_set self calls :
  received_times calls ≠ [] → is_Some (last_received (run self calls)).
Proof.
  intros Hsome. rewrite last_received_run.
  destruct (last (received_times calls)) as [t|] eqn:Hlast; [done|].
  by apply last_None in Hlast.
Qed.

(** X1. The two directions of a time record do not interfere: a call of
    [update_sent] leaves both received attributes as they were, a call of
    [update_received] both sent attributes, and the two calls give the same
    record in either order. *)
Theorem update_sent_update_received_commute self a b :
  update_received (update_sent self a) b = update_sent (update_received self b) a
  ∧ first_received (update_sent self a) = first_received self
  ∧ last_received (update_sent self a) = last_received self
  ∧ first_sent (update_received self b) = first_sent self
  ∧ last_sent (update_received self b) = last_sent self.
Proof.
  destruct self as [[[|? ?]|] [[|? ?]|] ls lr]; by cbv.
Qed.

(** X2. On a record that has seen the calls [calls] since its creation, the
    first and the last time of a direction are set together: both are
    [None] when the method of the direction was never called, and both hold
    a string otherwise. *)
Theorem first_and_last_set_together calls :
  (first_sent (run init calls) = None ↔ sent_times calls = [])
  ∧ (last_sent (run init calls) = None ↔ sent_times calls = [])
  ∧ (first_received (run init calls) = None ↔ received_times calls = [])
  ∧ (last_received (run init calls) = None ↔ received_times calls = []).
Proof.
  assert (∀ (v : option string), is_Some v → v = None → False) as Hno.
  { by intros v [x ->]. }
  repeat split.
  - intros Hnone. destruct (decide (sent_times calls = [])) as [|Hne]; [done|].
    destruct (Hno _ (first_sent_set init calls Hne) Hnone).
  - by apply first_sent_never.
  - intros Hnone. destruct (decide (sent_times calls = [])) as [|Hne]; [done|].
    destruct (Hno _ (last_sent_set init calls Hne) Hnone).
  - intros Hnever. by apply (sent_frame init calls).
  - intros Hnone. destruct (decide (received_times calls = [])) as [|Hne]; [done|].
    destruct (Hno _ (first_received_set init calls Hne) Hnone).
  - by apply first_received_never.
  - intros Hnone. destruct (decide (received_times calls = [])) as [|Hne]; [done|].
    destruct (Hno _ (last_received_set init calls Hne) Hnone).
  - intros Hnever. by apply (received_frame init calls).
Qed.

End time_record_directions.

Section elapsed_failures.

Import TimeRecord.

Variable parse : string → option datetime.t.

Implicit Types (self : TimeRecord.t) (calls : list call).

Lemma get_elapsed_time_sent_set self :
  is_Some (first_sent self) → is_Some (last_sent self) →
  get_elapsed_time_sent parse self ≠ Raise TypeError.
Proof.
  intros [a Ha] [b Hb]. unfold get_elapsed_time_sent. rewrite Ha, Hb. simpl.
  by destruct (parse a), (parse b).
Qed.

Lemma get_elapsed_time_received_set self :
  is_Some (first_received self) → is_Some (last_received self) →
  get_elapsed_time_received parse self ≠ Raise TypeError.
Proof.
  intros [a Ha] [b Hb]. unfold get_elapsed_time_received. rewrite Ha, Hb. simpl.
  by destruct (parse a), (parse b).
Qed.

Lemma first_sent_single self calls time :
  first_sent self = None → sent_times calls = [time] →
  first_sent (run self calls) = Some time.
Proof.
  revert self. induction calls as [|c calls IH]; intros self Hnone Htimes; [done|].
  rewrite run_cons. destruct c as [t|t]; simpl in *.
  - injection Htimes as -> Hrest.
    destruct (sent_frame (update_sent self time) calls Hrest) as [-> _].
    unfold update_sent. by rewrite Hnone.
  - apply IH; [|done]. unfold update_received.
    by destruct (truthy (first_received self)).
Qed.

Lemma first_received_single self calls time :
  first_received self = None → received_times calls = [time] →
  first_received (run self calls) = Some time.
Proof.
  revert self. induction calls as [|c calls IH]; intros self Hnone Htimes; [done|].
  rewrite run_cons. destruct c as [t|t]; simpl in *.
  - apply IH; [|done]. unfold update_sent.
    by destruct (truthy (first_sent self)).
  - injection Htimes as -> Hrest.
    destruct (received_frame (update_received self time) calls Hrest) as [-> _].
    unfold update_received. by rewrite Hnone.
Qed.

(** X3. On a record that has seen the calls [calls] since its creation,
    [get_elapsed_time_sent] raises [TypeError] exactly when [update_sent]
    was never called, and [get_elapsed_time_received] exactly when
    [update_received] was never called: after a call of the direction, the
    only exception left is the [ValueError] of a time that does not
    parse. *)
Theorem elapsed_time_type_error calls :
  (get_elapsed_time_sent parse (run init calls) = Raise TypeError
   ↔ sent_times calls = [])
  ∧ (get_elapsed_time_received parse (run init calls) = Raise TypeError
     ↔ received_times calls = [])
  ∧ (sent_times calls ≠ [] →
     get_elapsed_time_sent parse (run init calls) = Raise ValueError
     ∨ ∃ printed, get_elapsed_time_sent parse (run init calls) = Return printed)
  ∧ (received_times calls ≠ [] →
     get_elapsed_time_received parse (run init calls) = Raise ValueError
     ∨ ∃ printed, get_elapsed_time_received parse (run init calls) = Return printed).
Proof.
  split; [|split; [|split]].
  - split.
    + intros Hraise. destruct (decide (sent_times calls = [])) as [|Hne]; [done|].
      by destruct (get_elapsed_time_sent_set (run init calls));
        [apply first_sent_set|apply last_sent_set|].
    + intros Hnever. by apply get_elapsed_time_sent_unset, first_sent_never.
  - split.
    + intros Hraise. destruct (decide (received_times calls = [])) as [|Hne]; [done|].
      by destruct (get_elapsed_time_received_set (run init calls));
        [apply first_received_set|apply last_received_set|].
    + intros Hnever. by apply get_elapsed_time_received_unset, first_received_never.
  - intros Hne.
    destruct (first_sent_set init calls Hne) as [a Ha].
    destruct (last_sent_set init calls Hne) as [b Hb].
    unfold get_elapsed_time_sent. rewrite Ha, Hb. simpl.
    destruct (parse a), (parse b); simpl; eauto.
  - intros Hne.
    destruct (first_received_set init calls Hne) as [a Ha].
    destruct (last_received_set init calls Hne) as [b Hb].
    unfold get_elapsed_time_received. rewrite Ha, Hb. simpl.
    destruct (parse a), (parse b); simpl; eauto.
Qed.

(** X4. After exactly one call of [update_sent], with a time that parses,
    and any number of calls of [update_received], the elapsed sent time is
    the zero duration, printed ["0:00:00"]; likewise for the received
    direction. *)
Theorem elapsed_time_single_update calls time d :
  parse time = Some d →
  (sent_times calls = [time] →
   get_elapsed_time_sent parse (run init calls) = Return "0:00:00")
  ∧ (received_times calls = [time] →
     get_elapsed_time_received parse (run init calls) = Return "0:00:00").
Proof.
  intros Hparse. split; intros Htimes.
  - rewrite (get_elapsed_time_sent_fields parse (run init calls) time time d d);
      [by rewrite Z.sub_diag|by apply first_sent_single| |done|done].
    by rewrite last_sent_run, Htimes.
  - rewrite (get_elapsed_time_received_fields parse (run init calls) time time d d);
      [by rewrite Z.sub_diag|by apply first_received_single| |done|done].
    by rewrite last_received_run, Htimes.
Qed.

End elapsed_failures.

(** A record with one time sent, after one received. *)
Lemma elapsed_time_type_error_witness :
  ∃ printed,
    TimeRecord.get_elapsed_time_sent Sample.parse
      (TimeRecord.run TimeRecord.init
         [TimeRecord.UpdateReceived "2016-06-22 10:00:00.000000";
          TimeRecord.UpdateSent "not a time"])
    = Raise ValueError
    ∨ TimeRecord.get_elapsed_time_sent Sample.parse
        (TimeRecord.run TimeRecord.init
           [TimeRecord.UpdateReceived "2016-06-22 10:00:00.000000";
            TimeRecord.UpdateSent "not a time"])
      = Return printed.
Proof.
  pose proof (elapsed_time_type_error Sample.parse
                [TimeRecord.UpdateReceived "2016-06-22 10:00:00.000000";
                 TimeRecord.UpdateSent "not a time"]) as (_ & _ & Hsent & _).
  destruct Hsent as [Hvalue|[printed Hreturn]]; [discriminate| |].
  - exists "". left. exact Hvalue.
  - exists printed. right. exact Hreturn.
Defined.

Lemma elapsed_time_single_update_witness :
  TimeRecord.get_elapsed_time_sent Sample.parse
    (TimeRecord.run TimeRecord.init
       [TimeRecord.UpdateReceived "2016-06-22 09:00:00.000000";
        TimeRecord.UpdateSent "2016-06-22 10:00:00.000000";
        TimeRecord.UpdateReceived "2016-06-22 11:00:00.000000"])
  = Return "0:00:00".
Proof.
  apply (elapsed_time_single_update Sample.parse
           [TimeRecord.UpdateReceived "2016-06-22 09:00:00.000000";
            TimeRecord.UpdateSent "2016-06-22 10:00:00.000000";
            TimeRecord.UpdateReceived "2016-06-22 11:00:00.000000"]
           "2016-06-22 10:00:00.000000" 63602272800000000);
    reflexivity.
Defined.

(** ** [MachineNode]: sequences of calls of [add_pcap_record] *)

Section machine_node_calls.

Import MachineNode.

Implicit Types (self : MachineNode.t) (calls : list call) (c : call) (peer : string).

Lemma node_run_snoc self calls c : run self (calls ++ [c]) = apply (run self calls) c.
Proof. unfold run. by rewrite fold_left_app. Qed.

Lemma node_run_cons self calls c : run self (c :: calls) = run (apply self c) calls.
Proof. done. Qed.

Lemma number_of_snoc kind calls c :
  number_of kind (calls ++ [c]) = number_of kind calls + (if kind c then 1 else 0).
Proof.
  unfold number_of. rewrite List.filter_app, length_app. simpl.
  destruct (kind c); simpl; lia.
Qed.

Lemma number_of_nonneg kind calls : 0 ≤ number_of kind calls.
Proof. unfold number_of. lia. Qed.

Lemma apply_sent_to self c peer :
  machines_sent_to (apply self c) !! peer
  = if sends_to peer c
    then Some (default 0 (machines_sent_to self !! peer) + 1)
    else machines_sent_to self !! peer.
Proof.
  unfold apply, add_pcap_record, sends_to.
  destruct (call_receiving c); simpl; [done|].
  case_bool_decide as Hpeer.
  - rewrite <- Hpeer. apply incr_lookup.
  - by apply incr_lookup_ne.
Qed.

Lemma apply_received_from self c peer :
  machines_received_from (apply self c) !! peer
  = if receives_from peer c
    then Some (default 0 (machines_received_from self !! peer) + 1)
    else machines_received_from self !! peer.
Proof.
  unfold apply, add_pcap_record, receives_from.
  destruct (call_receiving c); simpl; [|done].
  case_bool_decide as Hpeer.
  - rewrite <- Hpeer. apply incr_lookup.
  - by apply incr_lookup_ne.
Qed.

Lemma run_sent_to addr calls peer :
  machines_sent_to (run (init addr) calls) !! peer
  = if bool_decide (number_of (sends_to peer) calls = 0)
    then None else Some (number_of (sends_to peer) calls).
Proof.
  induction calls as [|c calls IH] using rev_ind; [done|].
  rewrite node_run_snoc, apply_sent_to, IH, number_of_snoc.
  pose proof (number_of_nonneg (sends_to peer) calls).
  destruct (sends_to peer c); repeat case_bool_decide; simpl; try done; try lia.
  - f_equal. lia.
  - by rewrite Z.add_0_r.
Qed.

Lemma run_received_from addr calls peer :
  machines_received_from (run (init addr) calls) !! peer
  = if bool_decide (number_of (receives_from peer) calls = 0)
    then None else Some (number_of (receives_from peer) calls).
Proof.
  induction calls as [|c calls IH] using rev_ind; [done|].
  rewrite node_run_snoc, apply_received_from, IH, number_of_snoc.
  pose proof (number_of_nonneg (receives_from peer) calls).
  destruct (receives_from peer c); repeat case_bool_decide; simpl; try done; try lia.
  - f_equal. lia.
  - by rewrite Z.add_0_r.
Qed.

Lemma apply_time_record self c :
  time_record (apply self c)
  = from_option (TimeRecord.apply (time_record self)) (time_record self) (time_call c).
Proof.
  unfold apply, add_pcap_record, time_call.
  by destruct (call_receiving c), (call_pcap c).
Qed.

Lemma run_time_record self calls :
  time_record (run self calls) = TimeRecord.run (time_record self) (time_calls calls).
Proof.
  induction calls as [|c calls IH] using rev_ind; [done|].
  rewrite node_run_snoc, apply_time_record, IH.
  unfold time_calls. rewrite omap_app. simpl.
  destruct (time_call c) as [tc|]; simpl.
  - by rewrite run_snoc.
  - by rewrite app_nil_r.
Qed.

(** X5. The list of lengths of a node only grows at its end: after a
    sequence of calls of [add_pcap_record] it is the list before, followed
    by the lengths of the calls in their order; the number of packets grows
    by the number of calls and the address of the node stays. *)
Theorem run_packet_lengths self calls :
  packet_lengths (run self calls) = (packet_lengths self ++ (call_length <$> calls))%list
  ∧ num_packets (run self calls) = num_packets self + Z.of_nat (List.length calls)
  ∧ machine_addr (run self calls) = machine_addr self.
Proof.
  induction calls as [|c calls (IHlengths & IHnum & IHaddr)] using rev_ind.
  - simpl. rewrite app_nil_r. split; [done|]. split; [lia|done].
  - rewrite node_run_snoc. unfold apply, add_pcap_record.
    destruct (call_receiving c); simpl;
      rewrite IHlengths, IHnum, IHaddr, fmap_app, length_app, <- app_assoc; simpl;
      (split; [done|]; split; [lia|done]).
Qed.

(** X6. The time record of a node after a sequence of calls of
    [add_pcap_record] is its time record before, after the calls of
    [update_sent] and [update_received] that the calls with a pcap record
    make, in their order, with the date and the time of the record joined
    by a space. *)
Theorem run_time_record_calls self calls :
  time_record (run self calls) = TimeRecord.run (time_record self) (time_calls calls)
  ∧ (Forall (λ c, call_pcap c = None) calls → time_record (run self calls) = time_record self).
Proof.
  split; [apply run_time_record|].
  intros Hnone. rewrite run_time_record.
  replace (time_calls calls) with (@nil TimeRecord.call); [done|].
  induction Hnone as [|c calls Hc _ IH]; [done|].
  unfold time_calls in *. simpl. unfold time_call at 1. by rewrite Hc.
Qed.

(** X7. In a node created and then updated by a sequence of calls, the
    frequency of a peer in [machines_sent_to] is the number of calls that
    recorded a packet sent to the peer, and a peer that no packet was sent
    to has no entry; likewise for [machines_received_from]. *)
Theorem run_frequencies addr calls peer :
  machines_sent_to (run (init addr) calls) !! peer
  = (if bool_decide (number_of (sends_to peer) calls = 0)
     then None else Some (number_of (sends_to peer) calls))
  ∧ machines_received_from (run (init addr) calls) !! peer
    = (if bool_decide (number_of (receives_from peer) calls = 0)
       then None else Some (number_of (receives_from peer) calls)).
Proof. split; [apply run_sent_to|apply run_received_from]. Qed.

End machine_node_calls.

Lemma run_time_record_calls_witness :
  MachineNode.time_record
    (MachineNode.run (MachineNode.init "10.0.0.1")
       [MachineNode.mk_call 100 "10.0.0.2" false None;
        MachineNode.mk_call 50 "8.8.8.8" true None])
  = TimeRecord.init.
Proof.
  apply (run_time_record_calls (MachineNode.init "10.0.0.1")
           [MachineNode.mk_call 100 "10.0.0.2" false None;
            MachineNode.mk_call 50 "8.8.8.8" true None]).
  repeat constructor.
Defined.

(** ** [MachineNode]: the time record behind a node *)

Section machine_node_times.

Import MachineNode.

Implicit Types (self : MachineNode.t) (calls : list call) (c : call) (peer : string).

Lemma date_time_truthy pcap : truthy (Some (Pcap.date_time pcap)) = true.
Proof. unfold Pcap.date_time. by destruct (Pcap.date pcap). Qed.

Lemma update_sent_truthy tr time :
  truthy (Some time) = true →
  truthy (TimeRecord.first_sent (TimeRecord.update_sent tr time)) = true.
Proof.
  intros Htime. unfold TimeRecord.update_sent.
  destruct (truthy (TimeRecord.first_sent tr)) eqn:Hset; simpl; by rewrite ?Hset.
Qed.

Lemma update_received_truthy tr time :
  truthy (Some time) = true →
  truthy (TimeRecord.first_received (TimeRecord.update_received tr time)) = true.
Proof.
  intros Htime. unfold TimeRecord.update_received.
  destruct (truthy (TimeRecord.first_received tr)) eqn:Hset; simpl; by rewrite ?Hset.
Qed.

Lemma update_received_first_sent tr time :
  TimeRecord.first_sent (TimeRecord.update_received tr time) = TimeRecord.first_sent tr.
Proof.
  unfold TimeRecord.update_received. by destruct (truthy (TimeRecord.first_received tr)).
Qed.

Lemma update_sent_first_received tr time :
  TimeRecord.first_received (TimeRecord.update_sent tr time)
  = TimeRecord.first_received tr.
Proof.
  unfold TimeRecord.update_sent. by destruct (truthy (TimeRecord.first_sent tr)).
Qed.

Lemma add_pcap_record_time_record self length peer receiving pcap :
  time_record (add_pcap_record self length peer receiving pcap)
  = match pcap with
    | Some p =>
        if receiving
        then TimeRecord.update_received (time_record self) (Pcap.date_time p)
        else TimeRecord.update_sent (time_record self) (Pcap.date_time p)
    | None => time_record self
    end.
Proof. unfold add_pcap_record. by destruct receiving, pcap. Qed.

(** The first times of a node are [None] or a string that is not empty. *)
Lemma reachable_first_times addr self :
  reachable addr self →
  (TimeRecord.first_sent (time_record self) = None
   ∨ truthy (TimeRecord.first_sent (time_record self)) = true)
  ∧ (TimeRecord.first_received (time_record self) = None
     ∨ truthy (TimeRecord.first_received (time_record self)) = true).
Proof.
  induction 1 as [|self length peer receiving pcap _ [IHsent IHreceived]].
  - split; by left.
  - rewrite add_pcap_record_time_record. destruct pcap as [p|], receiving; try done.
    + split; [by rewrite update_received_first_sent|].
      right. apply update_received_truthy, date_time_truthy.
    + split; [|by rewrite update_sent_first_received].
      right. apply update_sent_truthy, date_time_truthy.
Qed.

(** X8. Through [add_pcap_record] the first times are written once: on a
    node reached from a freshly created one, a first sent time that is set
    is kept by every further call, whatever its direction and its pcap
    record, and so is a first received time. *)
Theorem add_pcap_record_first_times_kept addr self length peer receiving pcap :
  reachable addr self →
  (is_Some (TimeRecord.first_sent (time_record self)) →
   TimeRecord.first_sent (time_record (add_pcap_record self length peer receiving pcap))
   = TimeRecord.first_sent (time_record self))
  ∧ (is_Some (TimeRecord.first_received (time_record self)) →
     TimeRecord.first_received
       (time_record (add_pcap_record self length peer receiving pcap))
     = TimeRecord.first_received (time_record self)).
Proof.
  intros [Hsent Hreceived]%reachable_first_times. split.
  - intros [t Ht]. destruct Hsent as [Hnone|Hset]; [congruence|].
    rewrite add_pcap_record_time_record. destruct pcap as [p|], receiving; try done.
    + apply update_received_first_sent.
    + by apply (first_sent_kept _ (TimeRecord.UpdateSent _)).
  - intros [t Ht]. destruct Hreceived as [Hnone|Hset]; [congruence|].
    rewrite add_pcap_record_time_record. destruct pcap as [p|], receiving; try done.
    + by apply (first_received_kept _ (TimeRecord.UpdateReceived _)).
    + apply update_sent_first_received.
Qed.

End machine_node_times.

(** A node with a first sent time keeps it when a later packet carries an
    earlier time. *)
Lemma add_pcap_record_first_times_kept_witness :
  TimeRecord.first_sent
    (MachineNode.time_record
       (MachineNode.add_pcap_record
          (MachineNode.add_pcap_record (MachineNode.init "10.0.0.1") 100 "10.0.0.2" false
             (Some (Pcap.mk "10.0.0.1" "10.0.0.2" 100 "2016-06-22" "10:00:01.000000")))
          200 "10.0.0.2" false
          (Some (Pcap.mk "10.0.0.1" "10.0.0.2" 200 "2016-06-22" "10:00:00.000000"))))
  = Some "2016-06-22 10:00:01.000000".
Proof.
  pose proof (add_pcap_record_first_times_kept "10.0.0.1"
                (MachineNode.add_pcap_record (MachineNode.init "10.0.0.1")
                   100 "10.0.0.2" false
                   (Some (Pcap.mk "10.0.0.1" "10.0.0.2" 100 "2016-06-22" "10:00:01.000000")))
                200 "10.0.0.2" false
                (Some (Pcap.mk "10.0.0.1" "10.0.0.2" 200 "2016-06-22" "10:00:00.000000")))
    as [Hkept _].
  - apply MachineNode.reachable_add, MachineNode.reachable_init.
  - rewrite Hkept; [reflexivity|]. eexists. reflexivity.
Defined.

(** ** [MachineNode]: durations, peers and statistics of a node *)

Section machine_node_queries.

Import MachineNode.

Variable parse : string → option datetime.t.

Implicit Types (self : MachineNode.t) (calls : list call) (c : call) (peer : string).

Lemma run_sent_to_empty addr calls :
  machines_sent_to (run (init addr) calls) = ∅
  ↔ Forall (λ c, call_receiving c = true) calls.
Proof.
  clear parse.
  induction calls as [|c calls IH] using rev_ind; [done|].
  rewrite node_run_snoc, Forall_app, Forall_singleton, <- IH.
  unfold apply, add_pcap_record, incr. destruct (call_receiving c); simpl.
  - intuition.
  - split; [|by intros [_ ?]]. intros Hempty. by destruct (insert_non_empty _ _ _ Hempty).
Qed.

Lemma run_received_from_empty addr calls :
  machines_received_from (run (init addr) calls) = ∅
  ↔ Forall (λ c, call_receiving c = false) calls.
Proof.
  clear parse.
  induction calls as [|c calls IH] using rev_ind; [done|].
  rewrite node_run_snoc, Forall_app, Forall_singleton, <- IH.
  unfold apply, add_pcap_record, incr. destruct (call_receiving c); simpl.
  - split; [|by intros [_ ?]]. intros Hempty. by destruct (insert_non_empty _ _ _ Hempty).
  - intuition.
Qed.

Lemma time_calls_sent_times calls :
  Forall (λ c, is_Some (call_pcap c)) calls →
  TimeRecord.sent_times (time_calls calls) = []
  ↔ Forall (λ c, call_receiving c = true) calls.
Proof.
  clear parse.
  induction 1 as [|c calls [p Hp] _ IH]; [done|].
  rewrite Forall_cons, <- IH. unfold time_calls. simpl. unfold time_call at 1 3.
  rewrite Hp. destruct (call_receiving c); simpl; intuition discriminate.
Qed.

Lemma time_calls_received_times calls :
  Forall (λ c, is_Some (call_pcap c)) calls →
  TimeRecord.received_times (time_calls calls) = []
  ↔ Forall (λ c, call_receiving c = false) calls.
Proof.
  clear parse.
  induction 1 as [|c calls [p Hp] _ IH]; [done|].
  rewrite Forall_cons, <- IH. unfold time_calls. simpl. unfold time_call at 1 3.
  rewrite Hp. destruct (call_receiving c); simpl; intuition discriminate.
Qed.

Lemma elapsed_sent_type_error tcalls :
  TimeRecord.get_elapsed_time_sent parse (TimeRecord.run TimeRecord.init tcalls)
  = Raise TypeError
  ↔ TimeRecord.sent_times tcalls = [].
Proof.
  split.
  - intros Hraise. destruct (decide (TimeRecord.sent_times tcalls = [])) as [|Hne]; [done|].
    by destruct (get_elapsed_time_sent_set parse (TimeRecord.run TimeRecord.init tcalls));
      [apply first_sent_set|apply last_sent_set|].
  - intros Hnever. by apply get_elapsed_time_sent_unset, first_sent_never.
Qed.

Lemma elapsed_received_type_error tcalls :
  TimeRecord.get_elapsed_time_received parse (TimeRecord.run TimeRecord.init tcalls)
  = Raise TypeError
  ↔ TimeRecord.received_times tcalls = [].
Proof.
  split.
  - intros Hraise.
    destruct (decide (TimeRecord.received_times tcalls = [])) as [|Hne]; [done|].
    by destruct (get_elapsed_time_received_set parse
                   (TimeRecord.run TimeRecord.init tcalls));
      [apply first_received_set|apply last_received_set|].
  - intros Hnever. by apply get_elapsed_time_received_unset, first_received_never.
Qed.

(** X9. On a node created and then updated by calls that all carry a pcap
    record, [get_flow_duration] raises [TypeError] for the direction
    ['sent'] exactly when the node has sent to no machine, and for any other
    direction, which is read as received, exactly when the node has received
    from no machine. *)
Theorem get_flow_duration_type_error addr calls direction :
  Forall (λ c, is_Some (call_pcap c)) calls →
  (get_flow_duration parse (run (init addr) calls) "sent" = Raise TypeError
   ↔ machines_sent_to (run (init addr) calls) = ∅)
  ∧ (direction ≠ "sent" →
     get_flow_duration parse (run (init addr) calls) direction = Raise TypeError
     ↔ machines_received_from (run (init addr) calls) = ∅).
Proof.
  intros Hpcap. unfold get_flow_duration. rewrite run_time_record. split.
  - rewrite bool_decide_eq_true_2 by done.
    by rewrite elapsed_sent_type_error, run_sent_to_empty, time_calls_sent_times.
  - intros Hdirection. rewrite bool_decide_eq_false_2 by done.
    by rewrite elapsed_received_type_error, run_received_from_empty,
      time_calls_received_times.
Qed.

Lemma positive_count (k freq : Z) :
  0 ≤ k →
  (if bool_decide (k = 0) then None else Some k) = Some freq ↔ freq = k ∧ 0 < freq.
Proof.
  intros Hk. case_bool_decide as Hzero.
  - split; [done|]. intros [-> Hpos]. lia.
  - split.
    + intros Hfreq. apply (inj Some) in Hfreq. lia.
    + by intros [-> _].
Qed.

(** X10. The pairs that [get_machines_sent_to] yields on a node created and
    then updated by a sequence of calls are the peers that a packet was sent
    to, each once, with the number of calls that recorded a packet sent to
    it; likewise [get_machines_received_from]. *)
Theorem get_machines_yield addr calls peer freq :
  ((peer, freq) ∈ get_machines_sent_to (run (init addr) calls)
   ↔ freq = number_of (sends_to peer) calls ∧ 0 < freq)
  ∧ ((peer, freq) ∈ get_machines_received_from (run (init addr) calls)
     ↔ freq = number_of (receives_from peer) calls ∧ 0 < freq)
  ∧ NoDup (get_machines_sent_to (run (init addr) calls)).*1
  ∧ NoDup (get_machines_received_from (run (init addr) calls)).*1.
Proof.
  unfold get_machines_sent_to, get_machines_received_from.
  rewrite !elem_of_map_to_list, run_sent_to, run_received_from.
  split; [|split; [|split; apply NoDup_fst_map_to_list]];
    apply positive_count, number_of_nonneg.
Qed.

End machine_node_queries.

(** A node that has only sent has no received duration. *)
Lemma get_flow_duration_type_error_witness :
  MachineNode.get_flow_duration Sample.parse
    (MachineNode.run (MachineNode.init "10.0.0.1")
       [MachineNode.mk_call 100 "10.0.0.2" false
          (Some (Pcap.mk "10.0.0.1" "10.0.0.2" 100 "2016-06-22" "10:00:00.000000"))])
    "received"
  = Raise TypeError.
Proof.
  pose proof (get_flow_duration_type_error Sample.parse "10.0.0.1"
                [MachineNode.mk_call 100 "10.0.0.2" false
                   (Some (Pcap.mk "10.0.0.1" "10.0.0.2" 100 "2016-06-22" "10:00:00.000000"))]
                "received") as [_ Hreceived].
  - repeat constructor. eexists. reflexivity.
  - apply Hreceived; [discriminate|reflexivity].
Defined.

Section machine_node_first_packet.

Import MachineNode.
Local Open Scope Qc_scope.

Lemma sum_lower_bound lo data :
  Forall (λ x, (lo ≤ x)%Z) data → (statistics.len data * lo ≤ statistics.sum data)%Z.
Proof.
  unfold statistics.len. induction 1 as [|x data Hx _ IH]; simpl; [done|]. lia.
Qed.

Lemma sum_upper_bound hi data :
  Forall (λ x, (x ≤ hi)%Z) data → (statistics.sum data ≤ statistics.len data * hi)%Z.
Proof.
  unfold statistics.len. induction 1 as [|x data Hx _ IH]; simpl; [done|]. lia.
Qed.

Lemma quotient_bounds (s n lo hi : Z) :
  (0 < n)%Z → (n * lo ≤ s)%Z → (s ≤ n * hi)%Z →
  Qc_of_Z lo ≤ Qc_of_Z s / Qc_of_Z n ∧ Qc_of_Z s / Qc_of_Z n ≤ Qc_of_Z hi.
Proof.
  intros Hn Hlo Hhi.
  assert (0 < Qc_of_Z n) as Hpos.
  { rewrite <- Z2Qc_inj_0. by apply (proj1 (Z2Qc_inj_lt 0 n)). }
  assert (Qc_of_Z n ≠ 0) as Hnonzero by (apply Qc_of_Z_nonzero; lia).
  split.
  - apply (Qcmult_le_mono_pos_r _ _ (Qc_of_Z n) Hpos).
    rewrite test_field by done. rewrite <- Z2Qc_inj_mul.
    apply (proj1 (Z2Qc_inj_le _ _)). lia.
  - apply (Qcmult_le_mono_pos_r _ _ (Qc_of_Z n) Hpos).
    rewrite test_field by done. rewrite <- Z2Qc_inj_mul.
    apply (proj1 (Z2Qc_inj_le _ _)). lia.
Qed.

(** X11. A node that has recorded one packet, the state in which a machine
    enters the registry, has the length of that packet as its mean packet
    length and the error message as its standard deviation. *)
Theorem first_packet_statistics addr length peer receiving pcap :
  get_mean_packet_len (add_pcap_record (init addr) length peer receiving pcap)
  = Return (Qc_of_Z length)
  ∧ get_packet_len_std_dev (add_pcap_record (init addr) length peer receiving pcap)
    = Message "Error retrieving standard deviation.".
Proof.
  assert (packet_lengths (add_pcap_record (init addr) length peer receiving pcap)
          = [length]) as Hlengths.
  { unfold add_pcap_record. by destruct receiving. }
  unfold get_mean_packet_len, get_packet_len_std_dev. rewrite Hlengths. split.
  - apply mean_single.
  - by rewrite stdev_few.
Qed.

(** X12. The mean packet length lies between the bounds of the recorded
    lengths, up to the rounding of the float: when every recorded length is
    between [lo] and [hi], with [0 <= lo] and [hi < 2^1000], and there is at
    least one, [get_mean_packet_len] returns a number between
    [(1 - 2^-53) * lo] and [(1 + 2^-53) * hi]. *)
Theorem get_mean_packet_len_bounds (self : MachineNode.t) (lo hi : Z) :
  packet_lengths self ≠ [] →
  (statistics.len (packet_lengths self) < 2 ^ 63)%Z →
  (0 ≤ lo)%Z → (hi < 2 ^ 1000)%Z →
  Forall (λ x, (lo ≤ x ≤ hi)%Z) (packet_lengths self) →
  ∃ mean : Qc,
    get_mean_packet_len self = Return mean
    ∧ (1 - / Qc_of_Z (2 ^ 53)) * Qc_of_Z lo ≤ mean
    ∧ mean ≤ (1 + / Qc_of_Z (2 ^ 53)) * Qc_of_Z hi.
Proof.
  intros Hdata Hlen Hlo Hhi Hbounds.
  assert (1 ≤ statistics.len (packet_lengths self))%Z as Hn by (by apply len_positive).
  destruct (mean_in_range (packet_lengths self)) as (mean & Hmean & _ & [Hlow Hhigh] & _);
    [done|done| |].
  { eapply Forall_impl; [done|]. simpl. lia. }
  destruct (quotient_bounds (statistics.sum (packet_lengths self))
              (statistics.len (packet_lengths self)) lo hi) as [Hq Hq']; [lia| | |].
  { apply sum_lower_bound. eapply Forall_impl; [done|]. simpl. lia. }
  { apply sum_upper_bound. eapply Forall_impl; [done|]. simpl. lia. }
  exists mean. split; [done|]. split.
  - etrans; [|exact Hlow]. apply Qcmult_le_mono_nonneg_l; [by vm_compute|done].
  - etrans; [exact Hhigh|]. apply Qcmult_le_mono_nonneg_l; [by vm_compute|done].
Qed.

End machine_node_first_packet.

(** The mean of the lengths 100, 200 and 50 is between 50 and 200. *)
Lemma get_mean_packet_len_bounds_witness :
  ∃ mean : Qc,
    MachineNode.get_mean_packet_len
      (MachineNode.mk "10.0.0.1" 3 [100; 200; 50] ∅ ∅ TimeRecord.init)
    = Return mean
    ∧ ((1 - / Qc_of_Z (2 ^ 53)) * Qc_of_Z 50 ≤ mean)%Qc
    ∧ (mean ≤ (1 + / Qc_of_Z (2 ^ 53)) * Qc_of_Z 200)%Qc.
Proof.
  apply (get_mean_packet_len_bounds
           (MachineNode.mk "10.0.0.1" 3 [100; 200; 50] ∅ ∅ TimeRecord.init) 50 200).
  - discriminate.
  - reflexivity.
  - discriminate.
  - reflexivity.
  - repeat constructor; discriminate.
Defined.

(** ** [FlowRecord]: what an update registers and counts *)

Section flow_record_registry.

Import FlowRecord.

Implicit Types (flow : FlowRecord.t) (src dest addr : string) (pcap : option Pcap.t).

Lemma union_both (X : gset string) (a b : string) :
  {[b]} ∪ ({[a]} ∪ X) = X ∪ {[a]} ∪ {[b]}.
Proof. apply set_eq; intros x; set_unfold; tauto. Qed.

Lemma union_first (X : gset string) (a : string) : {[a]} ∪ X = X ∪ {[a]} ∪ ∅.
Proof. apply set_eq; intros x; set_unfold; tauto. Qed.

Lemma union_second (X : gset string) (a : string) : {[a]} ∪ X = X ∪ ∅ ∪ {[a]}.
Proof. apply set_eq; intros x; set_unfold; tauto. Qed.

Lemma union_neither (X : gset string) : X = X ∪ ∅ ∪ ∅.
Proof. apply set_eq; intros x; set_unfold; tauto. Qed.

Lemma update_dom flow src s_in_net dest d_in_net length pcap :
  dom (machines (update flow src s_in_net dest d_in_net length pcap))
  = dom (machines flow)
    ∪ (if s_in_net then {[src]} else ∅) ∪ (if d_in_net then {[dest]} else ∅).
Proof.
  unfold update. destruct s_in_net, d_in_net; simpl.
  - destruct (machines flow !! src); simpl;
      (match goal with |- context [?m !! dest] => destruct (m !! dest) end); simpl;
      rewrite !dom_insert_L; apply union_both.
  - destruct (machines flow !! src); simpl; rewrite dom_insert_L; apply union_first.
  - destruct (machines flow !! dest); simpl; rewrite dom_insert_L; apply union_second.
  - apply union_neither.
Qed.

Lemma packets_node_or_new flow addr :
  MachineNode.num_packets (node_or_new flow addr) = packets flow addr.
Proof. unfold node_or_new, packets. by destruct (machines flow !! addr). Qed.

Lemma add_pcap_record_num_packets node length peer receiving pcap :
  MachineNode.num_packets (MachineNode.add_pcap_record node length peer receiving pcap)
  = MachineNode.num_packets node + 1.
Proof. unfold MachineNode.add_pcap_record. by destruct receiving. Qed.

Lemma packets_sent flow flow' src dest length pcap addr :
  records_sent flow flow' src dest length pcap →
  packets flow' addr = packets flow addr + (if bool_decide (addr = src) then 1 else 0).
Proof.
  intros [Hsrc Hframe]. case_bool_decide as Haddr.
  - subst addr. unfold packets at 1. rewrite Hsrc. cbn [from_option].
    by rewrite add_pcap_record_num_packets, packets_node_or_new.
  - unfold packets. rewrite Hframe by done. lia.
Qed.

Lemma packets_received flow flow' dest src length pcap addr :
  records_received flow flow' dest src length pcap →
  packets flow' addr = packets flow addr + (if bool_decide (addr = dest) then 1 else 0).
Proof.
  intros [Hdest Hframe]. case_bool_decide as Haddr.
  - subst addr. unfold packets at 1. rewrite Hdest. cbn [from_option].
    by rewrite add_pcap_record_num_packets, packets_node_or_new.
  - unfold packets. rewrite Hframe by done. lia.
Qed.

Lemma update_packets flow src s_in_net dest d_in_net length pcap addr :
  packets (update flow src s_in_net dest d_in_net length pcap) addr
  = packets flow addr
    + (if s_in_net && bool_decide (addr = src) then 1 else 0)
    + (if d_in_net && bool_decide (addr = dest) then 1 else 0).
Proof.
  destruct s_in_net, d_in_net; cbn [andb].
  - rewrite update_both.
    rewrite (packets_received _ _ dest src length pcap addr (update_destination _ _ _ _ _)).
    by rewrite (packets_sent _ _ src dest length pcap addr (update_source _ _ _ _ _)).
  - rewrite (packets_sent _ _ src dest length pcap addr (update_source _ _ _ _ _)). lia.
  - rewrite (packets_received _ _ dest src length pcap addr (update_destination _ _ _ _ _)).
    lia.
  - rewrite update_outside. lia.
Qed.

(** X13. [update] registers the addresses that are flagged as in the
    network and no other: the registered addresses after the call are those
    before, with the source when [s_in_net] and the destination when
    [d_in_net]; no address is ever removed. *)
Theorem update_registered flow src s_in_net dest d_in_net length pcap :
  dom (machines (update flow src s_in_net dest d_in_net length pcap))
  = dom (machines flow)
    ∪ (if s_in_net then {[src]} else ∅) ∪ (if d_in_net then {[dest]} else ∅)
  ∧ dom (machines flow)
    ⊆ dom (machines (update flow src s_in_net dest d_in_net length pcap)).
Proof.
  rewrite update_dom. split; [done|].
  etrans; [|apply union_subseteq_l]. apply union_subseteq_l.
Qed.

(** X14. [update] counts a packet once for each end that is flagged as in
    the network: the number of packets of an address grows by one when it
    is the source and [s_in_net], and by one when it is the destination and
    [d_in_net], so by two for a packet a network machine sends to itself;
    the numbers of all other addresses stay. *)
Theorem update_counts flow src s_in_net dest d_in_net length pcap addr :
  packets (update flow src s_in_net dest d_in_net length pcap) addr
  = packets flow addr
    + (if s_in_net && bool_decide (addr = src) then 1 else 0)
    + (if d_in_net && bool_decide (addr = dest) then 1 else 0)
  ∧ packets (update flow addr true addr true length pcap) addr = packets flow addr + 2.
Proof.
  split; [apply update_packets|].
  rewrite update_packets. cbn [andb]. rewrite bool_decide_eq_true_2 by done. lia.
Qed.

End flow_record_registry.

Section flow_record_nodes.

Import FlowRecord.

Implicit Types (flow : FlowRecord.t) (src dest addr : string) (pcap : option Pcap.t).

Lemma reachable_node_counts addr node :
  MachineNode.reachable addr node →
  MachineNode.machine_addr node = addr
  ∧ MachineNode.num_packets node = Z.of_nat (List.length (MachineNode.packet_lengths node)).
Proof.
  induction 1 as [|node length peer receiving pcap _ [IHaddr IHnum]]; [done|].
  unfold MachineNode.add_pcap_record. destruct receiving; simpl;
    rewrite length_app; simpl; (split; [done|lia]).
Qed.

Lemma add_pcap_record_nonempty node length peer receiving pcap :
  MachineNode.packet_lengths (MachineNode.add_pcap_record node length peer receiving pcap)
  ≠ [].
Proof.
  unfold MachineNode.add_pcap_record. destruct receiving; simpl;
    by destruct (MachineNode.packet_lengths node).
Qed.

Lemma nodes_nonempty_sent flow flow' src dest length pcap :
  records_sent flow flow' src dest length pcap →
  nodes_nonempty flow → nodes_nonempty flow'.
Proof.
  intros [Hsrc Hframe] Hflow addr node. destruct (decide (addr = src)) as [->|Hne].
  - rewrite Hsrc. intros Hnode. apply (inj Some) in Hnode. rewrite <- Hnode.
    apply add_pcap_record_nonempty.
  - rewrite Hframe by done. apply Hflow.
Qed.

Lemma nodes_nonempty_received flow flow' dest src length pcap :
  records_received flow flow' dest src length pcap →
  nodes_nonempty flow → nodes_nonempty flow'.
Proof.
  intros [Hdest Hframe] Hflow addr node. destruct (decide (addr = dest)) as [->|Hne].
  - rewrite Hdest. intros Hnode. apply (inj Some) in Hnode. rewrite <- Hnode.
    apply add_pcap_record_nonempty.
  - rewrite Hframe by done. apply Hflow.
Qed.

Lemma registry_nodes_nonempty flow : reachable flow → nodes_nonempty flow.
Proof.
  induction 1 as [|flow src s_in_net dest d_in_net length pcap _ IH].
  - intros addr node. simpl. by rewrite lookup_empty.
  - destruct s_in_net, d_in_net.
    + rewrite update_both.
      eapply nodes_nonempty_received; [apply update_destination|].
      eapply nodes_nonempty_sent; [apply update_source|done].
    + eapply nodes_nonempty_sent; [apply update_source|done].
    + eapply nodes_nonempty_received; [apply update_destination|done].
    + by rewrite update_outside.
Qed.

(** X15. In a registry built by calls of [update] from the empty one, every
    node is registered at its own address and has recorded at least one
    packet, so that [get_mean_packet_len] does not raise the
    [StatisticsError] of an empty list on a registered node: the one
    exception it can raise there is the [OverflowError] of a mean beyond the
    range of a float. *)
Theorem registered_node flow addr node :
  reachable flow → machines flow !! addr = Some node →
  MachineNode.machine_addr node = addr
  ∧ 1 ≤ MachineNode.num_packets node
  ∧ ∀ e, MachineNode.get_mean_packet_len node = Raise e → e = OverflowError.
Proof.
  intros Hflow Hnode.
  pose proof (registry_nodes_reachable flow Hflow addr node Hnode) as Hreachable.
  pose proof (registry_nodes_nonempty flow Hflow addr node Hnode) as Hnonempty.
  destruct (reachable_node_counts addr node Hreachable) as [Haddr Hnum].
  pose proof (len_positive _ Hnonempty) as Hlen.
  split; [done|]. split; [by rewrite Hnum|].
  intros e. by apply mean_raises.
Qed.

End flow_record_nodes.

(** The node of the source after one update of the empty registry. *)
Lemma registered_node_witness :
  MachineNode.machine_addr
    (MachineNode.add_pcap_record (MachineNode.init "10.0.0.1") 100 "8.8.8.8" false None)
  = "10.0.0.1"
  ∧ 1 ≤ MachineNode.num_packets
          (MachineNode.add_pcap_record (MachineNode.init "10.0.0.1") 100 "8.8.8.8" false None).
Proof.
  pose proof (registered_node
                (FlowRecord.update FlowRecord.init "10.0.0.1" true "8.8.8.8" false 100 None)
                "10.0.0.1"
                (MachineNode.add_pcap_record (MachineNode.init "10.0.0.1")
                   100 "8.8.8.8" false None)) as Hnode.
  destruct Hnode as (Haddr & Hnum & _).
  - apply FlowRecord.reachable_update, FlowRecord.reachable_init.
  - reflexivity.
  - split; [exact Haddr|exact Hnum].
Defined.

(** ** [analyze_pcap]: the registry after a sequence of messages *)

Section analyze_registry.

Variable literal_eval : string → result Pcap.t.
Variable network_machines : list string.

Implicit Types (flow : FlowRecord.t) (bodies : list string) (events : list Pcap.t).

Lemma analyze_pcap_decoded body event flow :
  literal_eval body = Return event →
  analyze_pcap literal_eval network_machines body flow
  = Return (FlowRecord.update flow
              (Pcap.src_ip event) (in_network network_machines (Pcap.src_ip event))
              (Pcap.dest_ip event) (in_network network_machines (Pcap.dest_ip event))
              (Pcap.length event) (Some event)).
Proof.
  intros Hevent. unfold analyze_pcap. rewrite Hevent. simpl.
  by destruct (in_network network_machines (Pcap.src_ip event)),
              (in_network network_machines (Pcap.dest_ip event)).
Qed.

Lemma consume_cons body bodies flow flow' :
  consume literal_eval network_machines (body :: bodies) flow = Return flow' →
  ∃ event,
    literal_eval body = Return event
    ∧ consume literal_eval network_machines bodies
        (FlowRecord.update flow
           (Pcap.src_ip event) (in_network network_machines (Pcap.src_ip event))
           (Pcap.dest_ip event) (in_network network_machines (Pcap.dest_ip event))
           (Pcap.length event) (Some event))
      = Return flow'.
Proof.
  simpl. destruct (literal_eval body) as [event|e] eqn:Hevent.
  - rewrite (analyze_pcap_decoded body event flow Hevent). simpl. eauto.
  - unfold analyze_pcap. by rewrite Hevent.
Qed.

Lemma in_network_elem_of addr :
  in_network network_machines addr = true
  ↔ addr ∈ (list_to_set network_machines : gset string).
Proof. unfold in_network. by rewrite bool_decide_eq_true, elem_of_list_to_set. Qed.

Lemma consume_dom bodies flow flow' :
  consume literal_eval network_machines bodies flow = Return flow' →
  dom (FlowRecord.machines flow) ⊆ dom (FlowRecord.machines flow')
  ∧ dom (FlowRecord.machines flow')
    ⊆ dom (FlowRecord.machines flow) ∪ list_to_set network_machines.
Proof.
  revert flow. induction bodies as [|body bodies IH]; intros flow Hflow.
  - injection Hflow as <-. split; [done|]. apply union_subseteq_l.
  - apply consume_cons in Hflow as (event & _ & Hrest).
    apply IH in Hrest as [Hkept Hnetwork]. rewrite update_dom in Hkept, Hnetwork.
    split.
    + intros addr Haddr. apply Hkept. set_unfold. tauto.
    + intros addr Haddr. apply Hnetwork in Haddr.
      destruct (in_network network_machines (Pcap.src_ip event)) eqn:Hsrc,
               (in_network network_machines (Pcap.dest_ip event)) eqn:Hdest;
        try apply in_network_elem_of in Hsrc; try apply in_network_elem_of in Hdest;
        set_unfold; intuition congruence.
Qed.

(** X16. The messages register network machines only: after
    [analyze_pcap] has been run on a sequence of message bodies, every
    address registered before is still registered, and every address
    registered since is in [network_machines]; from the empty registry, all
    registered addresses are network machines. *)
Theorem consume_registers_network_machines bodies flow flow' :
  consume literal_eval network_machines bodies flow = Return flow' →
  dom (FlowRecord.machines flow) ⊆ dom (FlowRecord.machines flow')
  ∧ dom (FlowRecord.machines flow')
    ⊆ dom (FlowRecord.machines flow) ∪ list_to_set network_machines
  ∧ (flow = FlowRecord.init →
     ∀ addr node, FlowRecord.machines flow' !! addr = Some node →
                  in_network network_machines addr = true).
Proof.
  intros [Hkept Hnetwork]%consume_dom. split; [done|]. split; [done|].
  intros -> addr node Hnode. apply in_network_elem_of.
  assert (addr ∈ dom (FlowRecord.machines flow')) as Haddr.
  { apply elem_of_dom. by eexists. }
  apply Hnetwork in Haddr. simpl in Haddr. rewrite dom_empty_L in Haddr.
  set_unfold. tauto.
Qed.

Lemma ends_update addr event :
  (if in_network network_machines (Pcap.src_ip event)
      && bool_decide (addr = Pcap.src_ip event) then 1 else 0)
  + (if in_network network_machines (Pcap.dest_ip event)
        && bool_decide (addr = Pcap.dest_ip event) then 1 else 0)
  = ends network_machines addr event.
Proof.
  unfold ends.
  destruct (decide (addr = Pcap.src_ip event)) as [Hsrc|Hsrc],
           (decide (addr = Pcap.dest_ip event)) as [Hdest|Hdest];
    repeat case_bool_decide; try congruence;
    rewrite <- ?Hsrc, <- ?Hdest;
    destruct (in_network network_machines addr); simpl;
    try lia;
    destruct (in_network network_machines (Pcap.src_ip event)),
             (in_network network_machines (Pcap.dest_ip event)); simpl; lia.
Qed.

Lemma consume_packets_from bodies events flow :
  Forall2 (λ body event, literal_eval body = Return event) bodies events →
  ∃ flow',
    consume literal_eval network_machines bodies flow = Return flow'
    ∧ ∀ addr, packets flow' addr
              = packets flow addr
                + foldr (λ event acc, ends network_machines addr event + acc) 0 events.
Proof.
  intros Hdecoded. revert flow.
  induction Hdecoded as [|body event bodies events Hevent _ IH]; intros flow.
  - exists flow. split; [done|]. intros addr. simpl. lia.
  - destruct (IH (FlowRecord.update flow
                    (Pcap.src_ip event) (in_network network_machines (Pcap.src_ip event))
                    (Pcap.dest_ip event) (in_network network_machines (Pcap.dest_ip event))
                    (Pcap.length event) (Some event))) as (flow' & Hflow' & Hpackets).
    exists flow'. split.
    + simpl. by rewrite (analyze_pcap_decoded body event flow Hevent).
    + intros addr. rewrite Hpackets, update_packets. simpl.
      rewrite <- (ends_update addr event). lia.
Qed.

(** X17. The messages are counted per network machine: when every body of
    a sequence decodes, running [analyze_pcap] on the sequence from the
    empty registry does not raise, and the number of packets of an address
    is then the number of times it is the source plus the number of times
    it is the destination of a message when it is a network machine, and no
    packet is recorded for any other address. *)
Theorem consume_counts_packets bodies events :
  Forall2 (λ body event, literal_eval body = Return event) bodies events →
  ∃ flow,
    consume literal_eval network_machines bodies FlowRecord.init = Return flow
    ∧ ∀ addr, packets flow addr
              = foldr (λ event acc, ends network_machines addr event + acc) 0 events.
Proof.
  intros Hdecoded.
  destruct (consume_packets_from bodies events FlowRecord.init Hdecoded)
    as (flow & Hflow & Hpackets).
  exists flow. split; [done|]. intros addr. rewrite Hpackets.
  unfold packets at 1. simpl. by rewrite lookup_empty.
Qed.

End analyze_registry.

Section analyze_durations.

Variable literal_eval : string → result Pcap.t.
Variable network_machines : list string.
Variable parse : string → option datetime.t.

Implicit Types (flow : FlowRecord.t) (bodies : list string).

Lemma node_or_new_recorded flow addr :
  nodes_recorded_with_pcap flow →
  ∃ calls,
    Forall (λ c, is_Some (MachineNode.call_pcap c)) calls
    ∧ node_or_new flow addr = MachineNode.run (MachineNode.init addr) calls.
Proof.
  intros Hflow. unfold node_or_new.
  destruct (FlowRecord.machines flow !! addr) as [node|] eqn:Haddr; simpl.
  - destruct (Hflow addr node Haddr) as (calls & _ & Hpcap & Hnode). eauto.
  - by exists [].
Qed.

Lemma add_pcap_record_recorded flow addr length peer receiving p :
  nodes_recorded_with_pcap flow →
  recorded_with_pcap addr
    (MachineNode.add_pcap_record (node_or_new flow addr) length peer receiving (Some p)).
Proof.
  intros (calls & Hpcap & Hnode)%(node_or_new_recorded flow addr).
  exists (calls ++ [MachineNode.mk_call length peer receiving (Some p)])%list.
  split; [by destruct calls|]. split.
  - apply Forall_app. split; [done|]. apply Forall_singleton. by eexists.
  - by rewrite node_run_snoc, <- Hnode.
Qed.

Lemma nodes_recorded_sent flow flow' src dest length p :
  records_sent flow flow' src dest length (Some p) →
  nodes_recorded_with_pcap flow → nodes_recorded_with_pcap flow'.
Proof.
  intros [Hsrc Hframe] Hflow addr node. destruct (decide (addr = src)) as [->|Hne].
  - rewrite Hsrc. intros Hnode. apply (inj Some) in Hnode. rewrite <- Hnode.
    by apply add_pcap_record_recorded.
  - rewrite Hframe by done. apply Hflow.
Qed.

Lemma nodes_recorded_received flow flow' dest src length p :
  records_received flow flow' dest src length (Some p) →
  nodes_recorded_with_pcap flow → nodes_recorded_with_pcap flow'.
Proof.
  intros [Hdest Hframe] Hflow addr node. destruct (decide (addr = dest)) as [->|Hne].
  - rewrite Hdest. intros Hnode. apply (inj Some) in Hnode. rewrite <- Hnode.
    by apply add_pcap_record_recorded.
  - rewrite Hframe by done. apply Hflow.
Qed.

Lemma nodes_recorded_update flow src s_in_net dest d_in_net length p :
  nodes_recorded_with_pcap flow →
  nodes_recorded_with_pcap
    (FlowRecord.update flow src s_in_net dest d_in_net length (Some p)).
Proof.
  intros Hflow. destruct s_in_net, d_in_net.
  - rewrite update_both.
    eapply nodes_recorded_received; [apply update_destination|].
    eapply nodes_recorded_sent; [apply update_source|done].
  - eapply nodes_recorded_sent; [apply update_source|done].
  - eapply nodes_recorded_received; [apply update_destination|done].
  - by rewrite update_outside.
Qed.

Lemma nodes_recorded_consume bodies flow flow' :
  consume literal_eval network_machines bodies flow = Return flow' →
  nodes_recorded_with_pcap flow → nodes_recorded_with_pcap flow'.
Proof.
  revert flow. induction bodies as [|body bodies IH]; intros flow Hflow' Hflow.
  - by injection Hflow' as <-.
  - apply consume_cons in Hflow' as (event & _ & Hrest).
    eapply IH; [done|]. by apply nodes_recorded_update.
Qed.

(** X18. On every node of the registry that [analyze_pcap] builds from the
    empty one, the durations follow the tables of peers:
    [get_flow_duration] raises [TypeError] for ['sent'] exactly when the node
    has sent to no machine, and for any other direction exactly when it has
    received from none; and one of the two tables is not empty. *)
Theorem consume_flow_durations bodies flow addr node direction :
  consume literal_eval network_machines bodies FlowRecord.init = Return flow →
  FlowRecord.machines flow !! addr = Some node →
  (MachineNode.get_flow_duration parse node "sent" = Raise TypeError
   ↔ MachineNode.machines_sent_to node = ∅)
  ∧ (direction ≠ "sent" →
     MachineNode.get_flow_duration parse node direction = Raise TypeError
     ↔ MachineNode.machines_received_from node = ∅)
  ∧ (MachineNode.machines_sent_to node ≠ ∅
     ∨ MachineNode.machines_received_from node ≠ ∅).
Proof.
  intros Hflow Hnode.
  assert (nodes_recorded_with_pcap flow) as Hrecorded.
  { eapply nodes_recorded_consume; [done|]. intros a n. simpl. by rewrite lookup_empty. }
  destruct (Hrecorded addr node Hnode) as (calls & Hcalls & Hpcap & ->).
  unfold MachineNode.get_flow_duration. rewrite run_time_record.
  split; [|split].
  - rewrite bool_decide_eq_true_2 by done.
    by rewrite elapsed_sent_type_error, run_sent_to_empty, time_calls_sent_times.
  - intros Hdirection. rewrite bool_decide_eq_false_2 by done.
    by rewrite elapsed_received_type_error, run_received_from_empty,
      time_calls_received_times.
  - destruct calls as [|c calls]; [done|].
    rewrite run_sent_to_empty, run_received_from_empty, !Forall_cons.
    destruct (MachineNode.call_receiving c); [right|left]; by intros [? _].
Qed.

End analyze_durations.

(** The registry of the first sample message and its node for [A]. *)
Lemma consume_registers_network_machines_witness :
  dom (FlowRecord.machines
         (FlowRecord.update FlowRecord.init Sample.A true Sample.B true 100
            (Some (Pcap.mk Sample.A Sample.B 100 "2016-06-22" "10:00:00.000000"))))
  ⊆ dom (FlowRecord.machines FlowRecord.init) ∪ list_to_set Sample.network_machines.
Proof.
  apply (consume_registers_network_machines (Sample.literal_eval Sample.table)
           Sample.network_machines [Sample.body1] FlowRecord.init
           (FlowRecord.update FlowRecord.init Sample.A true Sample.B true 100
              (Some (Pcap.mk Sample.A Sample.B 100 "2016-06-22" "10:00:00.000000")))).
  reflexivity.
Defined.

Lemma consume_counts_packets_witness :
  ∃ flow,
    Sample.flow = Return flow
    ∧ packets flow Sample.A = 3 ∧ packets flow Sample.B = 2 ∧ packets flow Sample.C = 0.
Proof.
  destruct (consume_counts_packets (Sample.literal_eval Sample.table)
              Sample.network_machines [Sample.body1; Sample.body2; Sample.body3]
              (snd <$> Sample.table)) as (flow & Hflow & Hpackets).
  - repeat constructor.
  - exists flow. split; [exact Hflow|]. rewrite !Hpackets. repeat split; reflexivity.
Defined.

Lemma consume_flow_durations_witness :
  MachineNode.get_flow_duration Sample.parse
    (MachineNode.add_pcap_record (MachineNode.init Sample.B) 100 Sample.A true
       (Some (Pcap.mk Sample.A Sample.B 100 "2016-06-22" "10:00:00.000000")))
    "sent"
  = Raise TypeError.
Proof.
  pose proof (consume_flow_durations (Sample.literal_eval Sample.table)
                Sample.network_machines Sample.parse [Sample.body1]
                (FlowRecord.update FlowRecord.init Sample.A true Sample.B true 100
                   (Some (Pcap.mk Sample.A Sample.B 100 "2016-06-22" "10:00:00.000000")))
                Sample.B
                (MachineNode.add_pcap_record (MachineNode.init Sample.B) 100 Sample.A true
                   (Some (Pcap.mk Sample.A Sample.B 100 "2016-06-22" "10:00:00.000000")))
                "received") as Hdurations.
  destruct Hdurations as (Hsent & _); [reflexivity|reflexivity|].
  apply Hsent. reflexivity.
Defined.
